(** * Radio Calico: the song rating store (db.js) and its HTTP layer (server.js)

    A shallow embedding of the rating subsystem.  The database connection that
    db.js keeps in the module-level constant [db] is a piece of mutable state:
    it is threaded explicitly through a small state-and-exception monad.  The
    two rating tables are finite maps keyed by their UNIQUE columns. *)

From stdpp Require Import gmap strings list fin_maps.
From Stdlib Require Import ZArith Lia.

Open Scope Z_scope.
Open Scope string_scope.

(** ** JavaScript values

    The values that reach the rating code: a string, [null], or [undefined]
    (a field that is absent from the request body destructures to
    [undefined]).  Numbers, booleans, arrays and objects are not modelled. *)
Inductive jsval : Type :=
| JUndefined
| JNull
| JStr (s : string).

#[global] Instance jsval_eq_dec : EqDecision jsval.
Proof. solve_decision. Defined.

(** ToBoolean: [undefined], [null] and the empty string are falsy. *)
Definition truthy (v : jsval) : bool :=
  match v with
  | JStr s => negb (bool_decide (s = ""))
  | _ => false
  end.

(** The [!] operator. *)
Definition js_not (v : jsval) : bool := negb (truthy v).

(** The [===] and [!==] operators. *)
Definition strict_eq (a b : jsval) : bool := bool_decide (a = b).
Definition strict_ne (a b : jsval) : bool := negb (strict_eq a b).

(** ** Exceptions, completions and the state monad *)

(** A thrown [Error]; [message] is its [.message] property.  A [SqliteError]
    comes from the database driver, a [TypeError] from the language itself. *)
Inductive exn : Type :=
| SqliteError (message : string)
| TypeError (message : string).

Definition exn_message (e : exn) : string :=
  match e with
  | SqliteError m => m
  | TypeError m => m
  end.

(** How a piece of JavaScript finishes: with a value or with a thrown error. *)
Inductive completion (A : Type) : Type :=
| Return (a : A)
| Throw (e : exn).
Arguments Return {A} a.
Arguments Throw {A} e.

(** A computation over a store of type [St].  The store that comes back with a
    [Throw] is the store at the moment of the throw: writes made before an
    exception stay, unless something undoes them. *)
Definition M (St A : Type) : Type := St -> completion A * St.

Definition ret {St A} (a : A) : M St A := fun s => (Return a, s).
Definition throw {St A} (e : exn) : M St A := fun s => (Throw e, s).
Definition bind {St A B} (m : M St A) (k : A -> M St B) : M St B :=
  fun s => match m s with
           | (Return a, s') => k a s'
           | (Throw e, s') => (Throw e, s')
           end.
Definition gets {St A} (f : St -> A) : M St A := fun s => (Return (f s), s).
Definition modify {St} (f : St -> St) : M St unit := fun s => (Return tt, f s).

(** [try { body } catch (error) { handler }] *)
Definition try_catch {St A} (body : M St A) (handler : exn -> M St A) : M St A :=
  fun s => match body s with
           | (Return a, s') => (Return a, s')
           | (Throw e, s') => handler e s'
           end.

Declare Scope js_scope.
Delimit Scope js_scope with js.
Notation "'let*' x ':=' m 'in' k" := (bind m (fun x => k))
  (at level 10, x name, m at level 100, k at level 200) : js_scope.
Notation "m ';;' k" := (bind m (fun _ => k))
  (at level 100, k at level 200, right associativity) : js_scope.
Open Scope js_scope.

(** ** The database (initDB)

    [song_ratings] has [song_key TEXT NOT NULL UNIQUE]: at most one row per key,
    so the table is a map from the key to the other columns.  [user_ratings] has
    [UNIQUE(song_key, user_id)] with both columns NOT NULL: a map from the pair
    to [rating_type].  The surrogate [id] and the two timestamp columns are
    left out; no function of db.js reads them.  The counts are SQLite INTEGERs,
    modelled as unbounded integers. *)
Record song_rating : Type := SongRating {
  artist : string;
  title : string;
  thumbs_up : Z;
  thumbs_down : Z
}.

Record database : Type := Database {
  song_ratings : gmap string song_rating;
  user_ratings : gmap (string * string) string
}.

(** The database right after [initDB] on a fresh file. *)
Definition empty_database : database :=
  {| song_ratings := ∅; user_ratings := ∅ |}.

(** Binding a JavaScript value to a [?]: a string binds as TEXT, [null] and
    [undefined] bind as SQL NULL ([None]). *)
Definition bind_param (v : jsval) : option string :=
  match v with
  | JStr s => Some s
  | JNull | JUndefined => None
  end.

(** The count column named by the interpolated [field]. *)
Inductive count_field : Type := Field_thumbs_up | Field_thumbs_down.

Definition increment (f : count_field) (r : song_rating) : song_rating :=
  match f with
  | Field_thumbs_up =>
      {| artist := artist r; title := title r;
         thumbs_up := thumbs_up r + 1; thumbs_down := thumbs_down r |}
  | Field_thumbs_down =>
      {| artist := artist r; title := title r;
         thumbs_up := thumbs_up r; thumbs_down := thumbs_down r + 1 |}
  end.

(** *** The prepared statements of db.js *)

(** [SELECT * FROM song_ratings WHERE song_key = ?]; a comparison with NULL
    selects nothing. *)
Definition select_song_rating (songKey : jsval) : M database (option (string * song_rating)) :=
  gets (fun d =>
    match bind_param songKey with
    | Some k => (fun r => (k, r)) <$> song_ratings d !! k
    | None => None
    end).

(** [SELECT * FROM user_ratings WHERE song_key = ? AND user_id = ?]; the row
    comes back as (song_key, user_id, rating_type). *)
Definition select_user_rating (songKey userId : jsval)
  : M database (option (string * string * string)) :=
  gets (fun d =>
    match bind_param songKey, bind_param userId with
    | Some k, Some u => (fun r => (k, u, r)) <$> user_ratings d !! (k, u)
    | _, _ => None
    end).

(** [INSERT INTO song_ratings (song_key, artist, title, thumbs_up, thumbs_down)
    VALUES (?, ?, ?, 0, 0)] with its NOT NULL and UNIQUE constraints. *)
Definition insert_song_rating (songKey artist0 title0 : jsval) : M database unit :=
  match bind_param songKey, bind_param artist0, bind_param title0 with
  | None, _, _ => throw (SqliteError "NOT NULL constraint failed: song_ratings.song_key")
  | Some _, None, _ => throw (SqliteError "NOT NULL constraint failed: song_ratings.artist")
  | Some _, Some _, None => throw (SqliteError "NOT NULL constraint failed: song_ratings.title")
  | Some k, Some a, Some t =>
      fun d =>
        match song_ratings d !! k with
        | Some _ => (Throw (SqliteError "UNIQUE constraint failed: song_ratings.song_key"), d)
        | None =>
            (Return tt,
             {| song_ratings :=
                  <[k := {| artist := a; title := t; thumbs_up := 0; thumbs_down := 0 |}]>
                    (song_ratings d);
                user_ratings := user_ratings d |})
        end
  end.

(** [UPDATE song_ratings SET field = field + 1, updated_at = CURRENT_TIMESTAMP
    WHERE song_key = ?]; no matching row means no change. *)
Definition update_song_rating (f : count_field) (songKey : jsval) : M database unit :=
  modify (fun d =>
    match bind_param songKey with
    | Some k =>
        {| song_ratings := alter (increment f) k (song_ratings d);
           user_ratings := user_ratings d |}
    | None => d
    end).

(** [INSERT INTO user_ratings (song_key, user_id, rating_type) VALUES (?, ?, ?)]
    with its NOT NULL constraints and [UNIQUE(song_key, user_id)]. *)
Definition insert_user_rating (songKey userId ratingType : jsval) : M database unit :=
  match bind_param songKey, bind_param userId, bind_param ratingType with
  | None, _, _ => throw (SqliteError "NOT NULL constraint failed: user_ratings.song_key")
  | Some _, None, _ => throw (SqliteError "NOT NULL constraint failed: user_ratings.user_id")
  | Some _, Some _, None => throw (SqliteError "NOT NULL constraint failed: user_ratings.rating_type")
  | Some k, Some u, Some r =>
      fun d =>
        match user_ratings d !! (k, u) with
        | Some _ =>
            (Throw (SqliteError
               "UNIQUE constraint failed: user_ratings.song_key, user_ratings.user_id"), d)
        | None =>
            (Return tt,
             {| song_ratings := song_ratings d;
                user_ratings := <[(k, u) := r]> (user_ratings d) |})
        end
  end.

(** [db.transaction(fn)()]: run [fn] between BEGIN and COMMIT; if [fn] throws,
    ROLLBACK restores the database and the error is thrown again. *)
Definition transaction {A} (fn : M database A) : M database A :=
  fun d => match fn d with
           | (Return a, d') => (Return a, d')
           | (Throw e, _) => (Throw e, d)
           end.

(** ** db.js: the song rating functions *)

(** What [getSongRatings] hands back: the selected row object, or the literal
    [{ thumbs_up: 0, thumbs_down: 0 }]. *)
Inductive ratings : Type :=
| RatingsRow (song_key : string) (row : song_rating)
| RatingsDefault.

Definition ratings_thumbs_up (r : ratings) : Z :=
  match r with RatingsRow _ row => thumbs_up row | RatingsDefault => 0 end.
Definition ratings_thumbs_down (r : ratings) : Z :=
  match r with RatingsRow _ row => thumbs_down row | RatingsDefault => 0 end.

(** What [addOrUpdateRating] returns: [{ error: ... }] or the ratings. *)
Inductive rating_result : Type :=
| ResultError (error : string)
| ResultRatings (r : ratings).

Definition getSongRatings (songKey : jsval) : M database ratings :=
  let* row := select_song_rating songKey in
  ret (match row with
       | Some (k, r) => RatingsRow k r
       | None => RatingsDefault
       end).

(** [ratingType === 'up' ? 'thumbs_up' : 'thumbs_down'] *)
Definition rating_field (ratingType : jsval) : count_field :=
  if strict_eq ratingType (JStr "up") then Field_thumbs_up else Field_thumbs_down.

(** The function passed to [db.transaction] in [addOrUpdateRating]. *)
Definition rating_transaction_body (songKey artist0 title0 ratingType userId : jsval)
  : M database unit :=
  let* songRating := select_song_rating songKey in
  (match songRating with
   | None => insert_song_rating songKey artist0 title0
   | Some _ => ret tt
   end) ;;
  let field := rating_field ratingType in
  update_song_rating field songKey ;;
  insert_user_rating songKey userId ratingType.

Definition addOrUpdateRating (songKey artist0 title0 ratingType userId : jsval)
  : M database rating_result :=
  let* existingRating := select_user_rating songKey userId in
  match existingRating with
  | Some _ => ret (ResultError "User has already rated this song")
  | None =>
      transaction (rating_transaction_body songKey artist0 title0 ratingType userId) ;;
      let* r := getSongRatings songKey in
      ret (ResultRatings r)
  end.

Definition getUserRating (songKey userId : jsval) : M database jsval :=
  let* result := select_user_rating songKey userId in
  ret (match result with
       | Some (_, _, rating_type) => JStr rating_type
       | None => JNull
       end).

(** ** server.js: the rating routes

    [const db = require('./db')]: the routes reach the store only through the
    functions the module exports, so they are written over any module with
    that interface, over any store type. *)
Record db_module (St : Type) : Type := DbModule {
  mod_getSongRatings : jsval -> M St ratings;
  mod_addOrUpdateRating : jsval -> jsval -> jsval -> jsval -> jsval -> M St rating_result;
  mod_getUserRating : jsval -> jsval -> M St jsval
}.
Arguments mod_getSongRatings {St} _ _.
Arguments mod_addOrUpdateRating {St} _ _ _ _ _ _.
Arguments mod_getUserRating {St} _ _ _.

(** The module db.js itself. *)
Definition db_js : db_module database :=
  {| mod_getSongRatings := getSongRatings;
     mod_addOrUpdateRating := addOrUpdateRating;
     mod_getUserRating := getUserRating |}.

(** The JSON documents the rating routes send. *)
Inductive json_body : Type :=
| ErrorBody (error : string)
| RatingsBody (r : ratings)
| UserRatingBody (hasRated : bool) (ratingType : jsval).

(** [res.status(code).json(body)]; a bare [res.json(body)] has status 200. *)
Record response : Type := Response {
  status : Z;
  body : json_body
}.

(** The five fields destructured from [req.body]. *)
Record rating_request : Type := RatingRequest {
  req_songKey : jsval;
  req_artist : jsval;
  req_title : jsval;
  req_ratingType : jsval;
  req_userId : jsval
}.

(** [req.body]: the object the body parsers made of the request, or
    [undefined] when no parser took the request (a request without a body, or
    with a content type that is neither JSON nor urlencoded; Express 5 leaves
    [req.body] unset then). *)
Inductive request_body (F : Type) : Type :=
| BodyUndefined
| BodyObject (fields : F).
Arguments BodyUndefined {F}.
Arguments BodyObject {F} fields.

(** [const { first, ... } = req.body]: destructuring [undefined] throws a
    TypeError that names the first property. *)
Definition destructure {St F : Type} (first : string) (reqBody : request_body F) : M St F :=
  match reqBody with
  | BodyObject fields => ret fields
  | BodyUndefined =>
      throw (TypeError ("Cannot destructure property '" ++ first
                        ++ "' of 'req.body' as it is undefined."))
  end.

Section Routes.
Context {St : Type} (db : db_module St).

(** [app.get('/api/ratings/:songKey', ...)] *)
Definition get_ratings (songKey : jsval) : M St response :=
  try_catch
    (let* ratings0 := mod_getSongRatings db songKey in
     ret {| status := 200; body := RatingsBody ratings0 |})
    (fun error => ret {| status := 500; body := ErrorBody (exn_message error) |}).

(** [app.post('/api/ratings', ...)]: what the [try] block does once the five
    fields are destructured. *)
Definition post_ratings_fields (b : rating_request) : M St response :=
  if js_not (req_songKey b) || js_not (req_artist b) || js_not (req_title b)
     || js_not (req_ratingType b) || js_not (req_userId b)
  then ret {| status := 400; body := ErrorBody "Missing required fields" |}
  else if strict_ne (req_ratingType b) (JStr "up")
          && strict_ne (req_ratingType b) (JStr "down")
  then ret {| status := 400; body := ErrorBody "Invalid rating type" |}
  else
    let* result :=
      mod_addOrUpdateRating db (req_songKey b) (req_artist b) (req_title b)
                            (req_ratingType b) (req_userId b) in
    match result with
    | ResultError error =>
        if truthy (JStr error)
        then ret {| status := 400; body := ErrorBody error |}
        else ret {| status := 200; body := ErrorBody error |}
    | ResultRatings r => ret {| status := 200; body := RatingsBody r |}
    end.

(** [app.post('/api/ratings', ...)]: the destructuring of [req.body] is the
    first statement of the [try] block. *)
Definition post_ratings (reqBody : request_body rating_request) : M St response :=
  try_catch
    (let* b := destructure "songKey" reqBody in
     post_ratings_fields b)
    (fun error => ret {| status := 500; body := ErrorBody (exn_message error) |}).

(** [app.get('/api/ratings/:songKey/user/:userId', ...)] *)
Definition get_user_rating (songKey userId : jsval) : M St response :=
  try_catch
    (let* rating := mod_getUserRating db songKey userId in
     ret {| status := 200; body := UserRatingBody (truthy rating) rating |})
    (fun error => ret {| status := 500; body := ErrorBody (exn_message error) |}).
End Routes.

(** ** Histories of store operations *)
Inductive store_op : Type :=
| OpGetSongRatings (songKey : jsval)
| OpAddOrUpdateRating (songKey artist0 title0 ratingType userId : jsval)
| OpGetUserRating (songKey userId : jsval).

(** The database an operation leaves behind, whether it returned or threw. *)
Definition run_op (o : store_op) (d : database) : database :=
  match o with
  | OpGetSongRatings k => snd (getSongRatings k d)
  | OpAddOrUpdateRating k a t r u => snd (addOrUpdateRating k a t r u d)
  | OpGetUserRating k u => snd (getUserRating k u d)
  end.

(** The databases the module can produce from a fresh file. *)
Inductive reachable : database -> Prop :=
| reachable_init : reachable empty_database
| reachable_step o d : reachable d -> reachable (run_op o d).

(** A run of [addOrUpdateRating] calls, one per (artist, title, userId), all
    with the same song key and rating type; the results are collected in call
    order and the run stops at the first throw. *)
Fixpoint cast_votes (songKey ratingType : jsval) (calls : list (string * string * string))
  : M database (list rating_result) :=
  match calls with
  | [] => ret []
  | (a, t, u) :: rest =>
      let* r := addOrUpdateRating songKey (JStr a) (JStr t) ratingType (JStr u) in
      let* rs := cast_votes songKey ratingType rest in
      ret (r :: rs)
  end.

(** A stand-in for db.js that only writes down which of its functions were
    called, as the mocked module of the API tests does. *)
Definition recording_module : db_module (list store_op) :=
  {| mod_getSongRatings := fun k log =>
       (Return RatingsDefault, (log ++ [OpGetSongRatings k])%list);
     mod_addOrUpdateRating := fun k a t r u log =>
       (Return (ResultRatings RatingsDefault), (log ++ [OpAddOrUpdateRating k a t r u])%list);
     mod_getUserRating := fun k u log =>
       (Return JNull, (log ++ [OpGetUserRating k u])%list) |}.

(** ** What the statements below observe *)

(** The stored counts of a song, zero when it has no row. *)
Definition stored_thumbs_up (k : string) (d : database) : Z :=
  match song_ratings d !! k with Some row => thumbs_up row | None => 0 end.
Definition stored_thumbs_down (k : string) (d : database) : Z :=
  match song_ratings d !! k with Some row => thumbs_down row | None => 0 end.

(** The votes counted for a song: both counts together, zero without a row. *)
Definition votes_counted (k : string) (d : database) : Z :=
  match song_ratings d !! k with
  | Some row => thumbs_up row + thumbs_down row
  | None => 0
  end.

(** Every stored count is at least zero. *)
Definition counts_nonnegative (d : database) : Prop :=
  forall k row, song_ratings d !! k = Some row -> 0 <= thumbs_up row /\ 0 <= thumbs_down row.

(** The row [INSERT ... VALUES (?, ?, ?, 0, 0)] creates. *)
Definition new_song_rating (a t : string) : song_rating :=
  {| artist := a; title := t; thumbs_up := 0; thumbs_down := 0 |}.

(** The database after a vote that went through, from the row [row0] the
    increment found. *)
Definition with_vote (k u r : string) (f : count_field) (row0 : song_rating) (d : database)
  : database :=
  {| song_ratings := <[k := increment f row0]> (song_ratings d);
     user_ratings := <[(k, u) := r]> (user_ratings d) |}.

(** The object [{ error: 'User has already rated this song' }]. *)
Definition duplicate_error : rating_result :=
  ResultError "User has already rated this song".

(** ** Two calls in flight

    [addOrUpdateRating] does three things in a row: the duplicate check, the
    transaction, and the final read.  better-sqlite3 is synchronous, so inside
    one server process a call runs through all three before the next request is
    looked at.  The engine's own guarantee is narrower: only the transaction is
    one unit.  A call is therefore split into its three steps, and two calls
    are interleaved step by step under an arbitrary schedule.  The schedules in
    which each call runs its three steps in one go are the single-process
    executions; the others need a second connection to the same database
    file. *)
Record call_args : Type := CallArgs {
  arg_songKey : jsval;
  arg_artist : jsval;
  arg_title : jsval;
  arg_ratingType : jsval;
  arg_userId : jsval
}.

(** Where a call stands. *)
Inductive call_pc : Type :=
| AtCheck
| AtTransaction
| AtFinalRead
| Finished (c : completion rating_result).

Definition call_step (a : call_args) (pc : call_pc) (d : database) : call_pc * database :=
  match pc with
  | AtCheck =>
      match select_user_rating (arg_songKey a) (arg_userId a) d with
      | (Return (Some _), d') =>
          (Finished (Return (ResultError "User has already rated this song")), d')
      | (Return None, d') => (AtTransaction, d')
      | (Throw e, d') => (Finished (Throw e), d')
      end
  | AtTransaction =>
      match transaction (rating_transaction_body (arg_songKey a) (arg_artist a) (arg_title a)
                           (arg_ratingType a) (arg_userId a)) d with
      | (Return _, d') => (AtFinalRead, d')
      | (Throw e, d') => (Finished (Throw e), d')
      end
  | AtFinalRead =>
      match getSongRatings (arg_songKey a) d with
      | (Return r, d') => (Finished (Return (ResultRatings r)), d')
      | (Throw e, d') => (Finished (Throw e), d')
      end
  | Finished c => (Finished c, d)
  end.

(** The two calls and the database they share. *)
Record two_calls : Type := TwoCalls {
  first_pc : call_pc;
  second_pc : call_pc;
  shared_db : database
}.

(** A schedule says which call moves next: [true] the first, [false] the
    second.  A finished call that is scheduled again does nothing. *)
Fixpoint run_schedule (a1 a2 : call_args) (sched : list bool) (c : two_calls) : two_calls :=
  match sched with
  | [] => c
  | true :: rest =>
      let '(pc, d) := call_step a1 (first_pc c) (shared_db c) in
      run_schedule a1 a2 rest {| first_pc := pc; second_pc := second_pc c; shared_db := d |}
  | false :: rest =>
      let '(pc, d) := call_step a2 (second_pc c) (shared_db c) in
      run_schedule a1 a2 rest {| first_pc := first_pc c; second_pc := pc; shared_db := d |}
  end.



(** The state two calls start from. *)
Definition both_at_check (d : database) : two_calls :=
  {| first_pc := AtCheck; second_pc := AtCheck; shared_db := d |}.


(** ** Counting the recorded votes *)



(** A song has a row exactly when some vote on it is recorded. *)
Definition rows_match_votes (d : database) : Prop :=
  forall k, is_Some (song_ratings d !! k) <-> exists u r, user_ratings d !! (k, u) = Some r.

(** A history of store operations, run in order. *)
Definition run_ops (ops : list store_op) (d : database) : database :=
  foldl (fun d' o => run_op o d') d ops.

(** ** db.js: the items table

    [items] has [id INTEGER PRIMARY KEY AUTOINCREMENT], [name TEXT NOT NULL] and
    a nullable [description]: a map from the id to the other columns, together
    with the table's entry in sqlite_sequence, the largest id ever handed out
    (0 on a fresh file).  [created_at] is left out, and with it
    [getAllItems], whose order is by that column.  The functions below work
    on this table only; the rating functions work on the other two. *)
Record item : Type := Item {
  item_name : string;
  item_description : option string
}.

Record items_table : Type := ItemsTable {
  items_rows : gmap Z item;
  items_sequence : Z
}.

Definition empty_items : items_table :=
  {| items_rows := ∅; items_sequence := 0 |}.

(** The largest rowid SQLite can store. *)
Definition MAX_ROWID : Z := 9223372036854775807.

(** The largest id in the table, if it has a row. *)
Definition largest_rowid (rows : gmap Z item) : option Z :=
  foldr (fun id acc => Some (match acc with Some m => Z.max id m | None => id end))
        None (fst <$> map_to_list rows).

(** The id AUTOINCREMENT picks for a new row: one more than the largest id in
    the table (1 if it is empty), raised to one more than the recorded
    sequence; none when the largest possible id has been used. *)
Definition new_rowid (tb : items_table) : option Z :=
  let v := match largest_rowid (items_rows tb) with
           | Some m => if decide (MAX_ROWID <= m) then None else Some (m + 1)
           | None => Some 1
           end in
  match v with
  | Some v' =>
      if decide (items_sequence tb = MAX_ROWID) then None
      else Some (Z.max v' (items_sequence tb + 1))
  | None => None
  end.

(** [INSERT INTO items (name, description) VALUES (?, ?)]; gives the new id. *)
Definition insert_item (name description : jsval) : M items_table Z :=
  fun tb =>
    match new_rowid tb with
    | None => (Throw (SqliteError "database or disk is full"), tb)
    | Some v =>
        match bind_param name with
        | None => (Throw (SqliteError "NOT NULL constraint failed: items.name"), tb)
        | Some n =>
            (Return v,
             {| items_rows := <[v := {| item_name := n;
                                        item_description := bind_param description |}]>
                                (items_rows tb);
                items_sequence := v |})
        end
    end.

(** A 64-bit integer as the JavaScript number the driver hands back for it:
    the integer itself up to 2^53 in size, beyond that the nearest double,
    ties going to the even mantissa. *)
Definition js_number (z : Z) : Z :=
  let a := Z.abs z in
  if decide (a <= 2 ^ 53) then z
  else
    let e := Z.log2 a - 52 in
    let q := a / 2 ^ e in
    let r := a mod 2 ^ e in
    let half := 2 ^ (e - 1) in
    let q' := if decide (r < half) then q
              else if decide (half < r) then q + 1
              else if Z.even q then q else q + 1 in
    Z.sgn z * (q' * 2 ^ e).

(** What [stmt.run] returns; both fields are JavaScript numbers. *)
Record run_result : Type := RunResult {
  changes : Z;
  lastInsertRowid : Z
}.

Definition addItem (name description : jsval) : M items_table run_result :=
  let* rowid := insert_item name description in
  ret {| changes := 1; lastInsertRowid := js_number rowid |}.

(** [SELECT * FROM items WHERE id = ?], for an integer [id]. *)
Definition getItemById (id : Z) : M items_table (option (Z * item)) :=
  gets (fun tb => (fun it => (id, it)) <$> items_rows tb !! id).

(** [DELETE FROM items WHERE id = ?], for an integer [id]; gives the [changes]
    of the result (its [lastInsertRowid] belongs to the connection and is not
    modelled). *)
Definition deleteItem (id : Z) : M items_table Z :=
  fun tb =>
    match items_rows tb !! id with
    | Some _ => (Return 1, {| items_rows := delete id (items_rows tb);
                              items_sequence := items_sequence tb |})
    | None => (Return 0, tb)
    end.

(** The documents the item route sends. *)
Inductive item_json : Type :=
| ItemCreated (id : Z) (name description : jsval)
| ItemError (error : string).

Record item_response : Type := ItemResponse {
  item_status : Z;
  item_body : item_json
}.

(** The two fields destructured from [req.body] by the add-item route. *)
Record item_request : Type := ItemRequest {
  req_name : jsval;
  req_description : jsval
}.

(** [app.post('/api/items', ...)] *)
Definition post_items (reqBody : request_body item_request) : M items_table item_response :=
  try_catch
    (let* b := destructure "name" reqBody in
     let* result := addItem (req_name b) (req_description b) in
     ret {| item_status := 200;
            item_body := ItemCreated (lastInsertRowid result) (req_name b)
                           (req_description b) |})
    (fun error => ret {| item_status := 500; item_body := ItemError (exn_message error) |}).

(** Histories of item operations. *)
Inductive item_op : Type :=
| OpAddItem (name description : jsval)
| OpGetItemById (id : Z)
| OpDeleteItem (id : Z).

Definition run_item_op (o : item_op) (tb : items_table) : items_table :=
  match o with
  | OpAddItem name description => snd (addItem name description tb)
  | OpGetItemById id => snd (getItemById id tb)
  | OpDeleteItem id => snd (deleteItem id tb)
  end.

Definition run_item_ops (ops : list item_op) (tb : items_table) : items_table :=
  foldl (fun tb' o => run_item_op o tb') tb ops.

(** * Properties *)

(** With a parsed body the submit-vote route is the rest of its [try] block
    under the [catch]. *)
Lemma post_ratings_parsed {St : Type} (db : db_module St) (b : rating_request) (s : St) :
  post_ratings db (BodyObject b) s
  = try_catch (post_ratings_fields db b)
      (fun error => ret {| status := 500; body := ErrorBody (exn_message error) |}) s.
Proof. reflexivity. Qed.

(** ** The statements and the transaction *)

Lemma alter_present {A} (f : A -> A) (k : string) (x : A) (m : gmap string A) :
  m !! k = Some x -> alter f k m = <[k := f x]> m.
Proof.
  intros Hk. apply map_eq. intros j.
  destruct (decide (k = j)) as [->|Hne].
  - rewrite lookup_alter_eq, lookup_insert_eq, Hk. reflexivity.
  - rewrite lookup_alter_ne, lookup_insert_ne by assumption. reflexivity.
Qed.

Lemma alter_just_inserted {A} (f : A -> A) (k : string) (x : A) (m : gmap string A) :
  alter f k (<[k := x]> m) = <[k := f x]> m.
Proof.
  rewrite (alter_present f k x) by apply lookup_insert_eq.
  apply insert_insert_eq.
Qed.

(** Whatever the function passed to [db.transaction] does, a throw leaves the
    database as it was. *)
Lemma transaction_rollback {A} (fn : M database A) (d d' : database) (e : exn) :
  transaction fn d = (Throw e, d') -> d' = d.
Proof.
  unfold transaction. destruct (fn d) as [[x|e0] d0]; intros H; inversion H; reflexivity.
Qed.


(** The transaction on string arguments, when the song already has a row. *)
Lemma rating_transaction_existing (k r u : string) (a t : jsval) (row0 : song_rating)
    (d : database) :
  song_ratings d !! k = Some row0 ->
  user_ratings d !! (k, u) = None ->
  transaction (rating_transaction_body (JStr k) a t (JStr r) (JStr u)) d
  = (Return tt, with_vote k u r (rating_field (JStr r)) row0 d).
Proof.
  intros Hrow Hvote.
  unfold transaction, rating_transaction_body, bind, select_song_rating, gets,
    update_song_rating, modify, insert_user_rating, ret, with_vote.
  simpl. rewrite Hrow. simpl. rewrite Hvote.
  rewrite (alter_present _ k row0) by assumption. reflexivity.
Qed.

(** The transaction on string arguments, when the song has no row yet. *)
Lemma rating_transaction_new (k a t r u : string) (d : database) :
  song_ratings d !! k = None ->
  user_ratings d !! (k, u) = None ->
  transaction (rating_transaction_body (JStr k) (JStr a) (JStr t) (JStr r) (JStr u)) d
  = (Return tt, with_vote k u r (rating_field (JStr r)) (new_song_rating a t) d).
Proof.
  intros Hrow Hvote.
  unfold transaction, rating_transaction_body, bind, select_song_rating, gets,
    insert_song_rating, update_song_rating, modify, insert_user_rating, ret, with_vote,
    new_song_rating.
  simpl. rewrite Hrow. simpl. rewrite Hrow. simpl. rewrite Hvote.
  rewrite alter_just_inserted. reflexivity.
Qed.

(** Every way the transaction can end: it throws and the database is as
    before, or all arguments that are stored were strings, the user had no
    vote on the song, and the database carries the whole vote. *)
Lemma rating_transaction_outcome (k a t r u : jsval) (d : database) :
  (exists e, transaction (rating_transaction_body k a t r u) d = (Throw e, d))
  \/ (exists ks rs us row0,
        k = JStr ks /\ r = JStr rs /\ u = JStr us
        /\ user_ratings d !! (ks, us) = None
        /\ (song_ratings d !! ks = Some row0
            \/ (song_ratings d !! ks = None
                /\ exists sa st, a = JStr sa /\ t = JStr st /\ row0 = new_song_rating sa st))
        /\ transaction (rating_transaction_body k a t r u) d
           = (Return tt, with_vote ks us rs (rating_field r) row0 d)).
Proof.
  destruct (transaction (rating_transaction_body k a t r u) d) as [[[]|e] d'] eqn:Hrun.
  2: { left. exists e. f_equal. eapply transaction_rollback. exact Hrun. }
  right.
  destruct k as [| |ks], u as [| |us], r as [| |rs];
    try (exfalso; revert Hrun;
         unfold transaction, rating_transaction_body, bind, select_song_rating, gets,
           insert_song_rating, update_song_rating, modify, insert_user_rating, ret, throw;
         simpl; repeat (case_match; simpl in *; try discriminate);
         discriminate).
  destruct (user_ratings d !! (ks, us)) as [v|] eqn:Hvote.
  { exfalso. revert Hrun.
    unfold transaction, rating_transaction_body, bind, select_song_rating, gets,
      insert_song_rating, update_song_rating, modify, insert_user_rating, ret, throw.
    simpl.
    destruct (song_ratings d !! ks) as [row|] eqn:Hrow; simpl.
    - rewrite Hvote. discriminate.
    - destruct a, t; simpl; try discriminate. rewrite Hrow. simpl. rewrite Hvote. discriminate. }
  destruct (song_ratings d !! ks) as [row|] eqn:Hrow.
  - exists ks, rs, us, row.
    rewrite rating_transaction_existing with (row0 := row) in Hrun by assumption.
    split_and!; try reflexivity; try assumption; [left; assumption|symmetry; exact Hrun].
  - destruct a as [| |sa], t as [| |st];
      try (exfalso; revert Hrun;
           unfold transaction, rating_transaction_body, bind, select_song_rating, gets,
             insert_song_rating, throw; simpl; rewrite Hrow; simpl; discriminate).
    exists ks, rs, us, (new_song_rating sa st).
    rewrite rating_transaction_new in Hrun by assumption.
    split_and!; try reflexivity; try assumption; [|symmetry; exact Hrun].
    right. split; [assumption|]. exists sa, st. auto.
Qed.

(** ** addOrUpdateRating, case by case *)

(** A second vote of the same user on the same song: the error object comes
    back and nothing is written. *)
Lemma addOrUpdateRating_duplicate (k u v : string) (a t r : jsval) (d : database) :
  user_ratings d !! (k, u) = Some v ->
  addOrUpdateRating (JStr k) a t r (JStr u) d = (Return duplicate_error, d).
Proof.
  intros Hvote.
  unfold addOrUpdateRating, bind, select_user_rating, gets, ret. simpl.
  rewrite Hvote. reflexivity.
Qed.

(** The final read after a vote that went through returns the new row. *)
Lemma getSongRatings_with_vote (k u r : string) (f : count_field) (row0 : song_rating)
    (d : database) :
  getSongRatings (JStr k) (with_vote k u r f row0 d)
  = (Return (RatingsRow k (increment f row0)), with_vote k u r f row0 d).
Proof.
  unfold getSongRatings, bind, select_song_rating, gets, ret, with_vote. simpl.
  rewrite lookup_insert_eq. reflexivity.
Qed.

(** Every way a call of [addOrUpdateRating] can end. *)
Lemma addOrUpdateRating_outcome (k a t r u : jsval) (d : database) :
  (exists ks us v,
      k = JStr ks /\ u = JStr us /\ user_ratings d !! (ks, us) = Some v
      /\ addOrUpdateRating k a t r u d = (Return duplicate_error, d))
  \/ (exists e, addOrUpdateRating k a t r u d = (Throw e, d))
  \/ (exists ks rs us row0,
        k = JStr ks /\ r = JStr rs /\ u = JStr us
        /\ user_ratings d !! (ks, us) = None
        /\ (song_ratings d !! ks = Some row0
            \/ (song_ratings d !! ks = None
                /\ exists sa st, a = JStr sa /\ t = JStr st /\ row0 = new_song_rating sa st))
        /\ addOrUpdateRating k a t r u d
           = (Return (ResultRatings (RatingsRow ks (increment (rating_field r) row0))),
              with_vote ks us rs (rating_field r) row0 d)).
Proof.
  destruct (select_user_rating k u d) as [c d0] eqn:Hsel.
  assert (Hd0 : d0 = d).
  { revert Hsel. unfold select_user_rating, gets. intros H; inversion H; reflexivity. }
  subst d0.
  destruct c as [[row|]|e].
  - left. revert Hsel. unfold select_user_rating, gets.
    destruct k as [| |ks], u as [| |us]; simpl; try discriminate.
    destruct (user_ratings d !! (ks, us)) as [v|] eqn:Hvote; simpl; try discriminate.
    intros _. exists ks, us, v. split_and!; try reflexivity; try assumption.
    eapply addOrUpdateRating_duplicate. exact Hvote.
  - right.
    assert (Hcall : addOrUpdateRating k a t r u d
                    = (transaction (rating_transaction_body k a t r u) ;;
                       let* res := getSongRatings k in ret (ResultRatings res)) d).
    { unfold addOrUpdateRating at 1. unfold bind at 1. rewrite Hsel. reflexivity. }
    destruct (rating_transaction_outcome k a t r u d)
      as [[e He]|(ks & rs & us & row0 & -> & -> & -> & Hvote & Hrow & Hrun)].
    + left. exists e. rewrite Hcall. unfold bind at 1. rewrite He. reflexivity.
    + right. exists ks, rs, us, row0. split_and!; try reflexivity; try assumption.
      rewrite Hcall. unfold bind at 1. rewrite Hrun.
      unfold bind. rewrite getSongRatings_with_vote. reflexivity.
  - exfalso. revert Hsel. unfold select_user_rating, gets. discriminate.
Qed.

(** A first vote with string arguments goes through. *)
Lemma addOrUpdateRating_first (k a t r u : string) (d : database) :
  user_ratings d !! (k, u) = None ->
  let row0 := default (new_song_rating a t) (song_ratings d !! k) in
  addOrUpdateRating (JStr k) (JStr a) (JStr t) (JStr r) (JStr u) d
  = (Return (ResultRatings (RatingsRow k (increment (rating_field (JStr r)) row0))),
     with_vote k u r (rating_field (JStr r)) row0 d).
Proof.
  intros Hvote row0.
  assert (Hsel : select_user_rating (JStr k) (JStr u) d = (Return None, d)).
  { unfold select_user_rating, gets. simpl. rewrite Hvote. reflexivity. }
  unfold addOrUpdateRating. unfold bind at 1. rewrite Hsel.
  unfold bind at 1. subst row0.
  destruct (song_ratings d !! k) as [row|] eqn:Hrow; simpl.
  - rewrite rating_transaction_existing with (row0 := row) by assumption.
    unfold bind. rewrite getSongRatings_with_vote. reflexivity.
  - rewrite rating_transaction_new by assumption.
    unfold bind. rewrite getSongRatings_with_vote. reflexivity.
Qed.

Lemma rating_field_up : rating_field (JStr "up") = Field_thumbs_up.
Proof. reflexivity. Qed.

Lemma rating_field_other (r : string) : r <> "up" -> rating_field (JStr r) = Field_thumbs_down.
Proof.
  intros Hr. unfold rating_field, strict_eq.
  rewrite bool_decide_eq_false_2; [reflexivity|]. intros H; inversion H; contradiction.
Qed.

Lemma default_row_counts (k a t : string) (d : database) :
  thumbs_up (default (new_song_rating a t) (song_ratings d !! k)) = stored_thumbs_up k d
  /\ thumbs_down (default (new_song_rating a t) (song_ratings d !! k)) = stored_thumbs_down k d.
Proof.
  unfold stored_thumbs_up, stored_thumbs_down.
  destruct (song_ratings d !! k); simpl; auto.
Qed.

(** What a first vote leaves in the two tables, whatever the rating type. *)
Lemma first_vote_effect (k a t r u : string) (d : database) :
  user_ratings d !! (k, u) = None ->
  exists row d',
    addOrUpdateRating (JStr k) (JStr a) (JStr t) (JStr r) (JStr u) d
    = (Return (ResultRatings (RatingsRow k row)), d')
    /\ row = increment (rating_field (JStr r)) (default (new_song_rating a t) (song_ratings d !! k))
    /\ song_ratings d' !! k = Some row
    /\ user_ratings d' !! (k, u) = Some r
    /\ (forall k', k' <> k -> song_ratings d' !! k' = song_ratings d !! k')
    /\ (forall p, p <> (k, u) -> user_ratings d' !! p = user_ratings d !! p).
Proof.
  intros Hvote. eexists. eexists. split.
  { apply addOrUpdateRating_first. exact Hvote. }
  unfold with_vote; simpl. split_and!.
  - reflexivity.
  - apply lookup_insert_eq.
  - apply lookup_insert_eq.
  - intros k' Hne. apply lookup_insert_ne. congruence.
  - intros p Hne. apply lookup_insert_ne. congruence.
Qed.

(** [getSongRatings] on a string key reads the row and writes nothing. *)
Lemma getSongRatings_lookup (k : string) (d : database) :
  getSongRatings (JStr k) d
  = (Return (match song_ratings d !! k with
             | Some row => RatingsRow k row
             | None => RatingsDefault
             end), d).
Proof.
  unfold getSongRatings, bind, select_song_rating, gets, ret. simpl.
  destruct (song_ratings d !! k); reflexivity.
Qed.

(** ** One call at a time *)

(** C5. [getSongRatings] never throws and writes nothing: for a song key
    without a row it returns thumbs_up = 0 and thumbs_down = 0, for a song key
    with a row it returns the counts stored in that row.  (A key that is null
    or undefined matches no row.) *)
Theorem getSongRatings_counts (songKey : jsval) (d : database) :
  exists res,
    getSongRatings songKey d = (Return res, d)
    /\ match songKey with
       | JStr k =>
           match song_ratings d !! k with
           | None => ratings_thumbs_up res = 0 /\ ratings_thumbs_down res = 0
           | Some row => ratings_thumbs_up res = thumbs_up row
                         /\ ratings_thumbs_down res = thumbs_down row
           end
       | _ => ratings_thumbs_up res = 0 /\ ratings_thumbs_down res = 0
       end.
Proof.
  destruct songKey as [| |k].
  - exists RatingsDefault. split; [reflexivity|split; reflexivity].
  - exists RatingsDefault. split; [reflexivity|split; reflexivity].
  - rewrite getSongRatings_lookup. eexists. split; [reflexivity|].
    destruct (song_ratings d !! k) as [row|]; split; reflexivity.
Qed.

(** The two database tests of [getSongRatings]: an unknown key, and a row
    inserted with counts 5 and 3. *)
Example getSongRatings_tests :
  fst (getSongRatings (JStr "nonexistent_key") empty_database) = Return RatingsDefault
  /\ fst (getSongRatings (JStr "test_key")
            {| song_ratings := {[ "test_key" := SongRating "Artist" "Title" 5 3 ]};
               user_ratings := ∅ |})
     = Return (RatingsRow "test_key" (SongRating "Artist" "Title" 5 3)).
Proof. split; reflexivity. Qed.

(** C1. When the user has no vote on the song, [addOrUpdateRating] with rating
    type up or down returns the ratings: the song's row exists afterwards (made
    with the given artist and title and zero counts when it was absent), the
    count named by the rating type is one more than before and the other count
    is as before, the vote (k, u, r) is recorded, the returned row is the stored
    one, and no other row of either table changes. *)
Theorem castVote_first_vote (d : database) (k a t r u : string) :
  r = "up" \/ r = "down" ->
  user_ratings d !! (k, u) = None ->
  exists row d',
    addOrUpdateRating (JStr k) (JStr a) (JStr t) (JStr r) (JStr u) d
    = (Return (ResultRatings (RatingsRow k row)), d')
    /\ song_ratings d' !! k = Some row
    /\ (song_ratings d !! k = None -> artist row = a /\ title row = t)
    /\ (forall old, song_ratings d !! k = Some old ->
                    artist row = artist old /\ title row = title old)
    /\ (r = "up" -> thumbs_up row = stored_thumbs_up k d + 1
                    /\ thumbs_down row = stored_thumbs_down k d)
    /\ (r = "down" -> thumbs_up row = stored_thumbs_up k d
                      /\ thumbs_down row = stored_thumbs_down k d + 1)
    /\ user_ratings d' !! (k, u) = Some r
    /\ (forall k', k' <> k -> song_ratings d' !! k' = song_ratings d !! k')
    /\ (forall p, p <> (k, u) -> user_ratings d' !! p = user_ratings d !! p).
Proof.
  intros Hr Hvote.
  destruct (first_vote_effect k a t r u d Hvote)
    as (row & d' & Hrun & Hrowdef & Hrow & Huser & Hsongs & Husers).
  destruct (default_row_counts k a t d) as [Hup Hdown].
  exists row, d'. split_and!; try assumption.
  - intros Hnone. subst row. rewrite Hnone. destruct (rating_field (JStr r)); auto.
  - intros old Hold. subst row. rewrite Hold. destruct (rating_field (JStr r)); auto.
  - intros ->. subst row. rewrite rating_field_up. simpl. lia.
  - intros ->. subst row. rewrite rating_field_other by discriminate. simpl. lia.
Qed.

Lemma castVote_first_vote_witness :
  exists row d',
    addOrUpdateRating (JStr "QXJ0aXN0fHx8VGl0bGU=") (JStr "Artist") (JStr "Title")
                      (JStr "up") (JStr "user_123") empty_database
    = (Return (ResultRatings (RatingsRow "QXJ0aXN0fHx8VGl0bGU=" row)), d')
    /\ thumbs_up row = 1 /\ thumbs_down row = 0
    /\ user_ratings d' !! ("QXJ0aXN0fHx8VGl0bGU=", "user_123") = Some "up".
Proof.
  destruct (castVote_first_vote empty_database "QXJ0aXN0fHx8VGl0bGU=" "Artist" "Title" "up"
              "user_123" (or_introl eq_refl) eq_refl)
    as (row & d' & Hrun & _ & _ & _ & Hup & _ & Huser & _).
  exists row, d'. destruct (Hup eq_refl) as [H1 H2].
  split_and!; assumption.
Defined.

(** C10. The store does not check the rating type: for every rating type string
    other than 'up' (so 'down', but also 'sideways' or the empty string), a call
    that passes the duplicate check returns the ratings, with thumbs_down one
    more than before and thumbs_up as before, and records the vote with that
    very string. *)
Theorem addOrUpdateRating_any_other_type_counts_down (d : database) (k a t r u : string) :
  r <> "up" ->
  user_ratings d !! (k, u) = None ->
  exists row d',
    addOrUpdateRating (JStr k) (JStr a) (JStr t) (JStr r) (JStr u) d
    = (Return (ResultRatings (RatingsRow k row)), d')
    /\ song_ratings d' !! k = Some row
    /\ thumbs_down row = stored_thumbs_down k d + 1
    /\ thumbs_up row = stored_thumbs_up k d
    /\ user_ratings d' !! (k, u) = Some r.
Proof.
  intros Hr Hvote.
  destruct (first_vote_effect k a t r u d Hvote)
    as (row & d' & Hrun & Hrowdef & Hrow & Huser & _).
  destruct (default_row_counts k a t d) as [Hup Hdown].
  exists row, d'. split_and!; try assumption.
  - subst row. rewrite rating_field_other by assumption. simpl. lia.
  - subst row. rewrite rating_field_other by assumption. simpl. lia.
Qed.

Lemma addOrUpdateRating_any_other_type_counts_down_witness :
  exists row d',
    addOrUpdateRating (JStr "song") (JStr "Artist") (JStr "Title") (JStr "sideways")
                      (JStr "user_1") empty_database
    = (Return (ResultRatings (RatingsRow "song" row)), d')
    /\ thumbs_down row = 1 /\ thumbs_up row = 0
    /\ user_ratings d' !! ("song", "user_1") = Some "sideways".
Proof.
  destruct (addOrUpdateRating_any_other_type_counts_down empty_database "song" "Artist" "Title"
              "sideways" "user_1" ltac:(discriminate) eq_refl)
    as (row & d' & Hrun & _ & Hdown & Hup & Huser).
  exists row, d'. split_and!; assumption.
Defined.

(** C2. When a vote of the user on the song is already stored,
    [addOrUpdateRating] returns the duplicate-vote error for every artist,
    title and rating type, and the database afterwards is the database before:
    no row of either table is written, and [getSongRatings] reports the same
    counts after the call as before it. *)
Theorem castVote_duplicate_rejected (d : database) (k u v : string) (a t r : jsval) :
  user_ratings d !! (k, u) = Some v ->
  addOrUpdateRating (JStr k) a t r (JStr u) d
  = (Return (ResultError "User has already rated this song"), d)
  /\ getSongRatings (JStr k) (snd (addOrUpdateRating (JStr k) a t r (JStr u) d))
     = getSongRatings (JStr k) d.
Proof.
  intros Hvote.
  pose proof (addOrUpdateRating_duplicate k u v a t r d Hvote) as Hrun.
  unfold duplicate_error in Hrun. rewrite Hrun. split; reflexivity.
Qed.

Lemma castVote_duplicate_rejected_witness :
  let d := snd (addOrUpdateRating (JStr "song") (JStr "Artist") (JStr "Title") (JStr "up")
                  (JStr "user_123") empty_database) in
  addOrUpdateRating (JStr "song") (JStr "Artist") (JStr "Title") (JStr "down")
                    (JStr "user_123") d
  = (Return (ResultError "User has already rated this song"), d).
Proof.
  intros d.
  exact (proj1 (castVote_duplicate_rejected d "song" "user_123" "up" (JStr "Artist")
                  (JStr "Title") (JStr "down") eq_refl)).
Defined.

(** The route answers a duplicate vote with status 400 and the store's error
    object, and leaves the database alone. *)
Lemma post_ratings_duplicate (d : database) (k a t r u v : string) :
  k <> "" -> a <> "" -> t <> "" -> u <> "" ->
  r = "up" \/ r = "down" ->
  user_ratings d !! (k, u) = Some v ->
  post_ratings db_js
    (BodyObject {| req_songKey := JStr k; req_artist := JStr a; req_title := JStr t;
                   req_ratingType := JStr r; req_userId := JStr u |}) d
  = (Return {| status := 400; body := ErrorBody "User has already rated this song" |}, d).
Proof.
  intros Hk Ha Ht Hu Hr Hvote.
  assert (Hr' : r <> "") by (destruct Hr as [->| ->]; discriminate).
  rewrite post_ratings_parsed.
  unfold post_ratings_fields, try_catch, js_not, truthy, strict_ne, strict_eq. simpl.
  rewrite !bool_decide_eq_false_2 by assumption. simpl.
  assert (Hvalid : negb (bool_decide (JStr r = JStr "up"))
                   && negb (bool_decide (JStr r = JStr "down")) = false).
  { destruct Hr as [->| ->]; reflexivity. }
  rewrite Hvalid. unfold bind.
  rewrite (addOrUpdateRating_duplicate k u v _ _ _ d Hvote). reflexivity.
Qed.

(** C7. In a state where the user has no vote on the song, [getUserRating]
    returns null; and right after an [addOrUpdateRating] call for that song and
    user that returned the ratings, it returns exactly the rating type that was
    passed in. *)
Theorem getUserVote_before_and_after (d : database) (k a t r u : jsval) :
  (forall ks us, k = JStr ks -> u = JStr us -> user_ratings d !! (ks, us) = None) ->
  getUserRating k u d = (Return JNull, d)
  /\ forall res d',
       addOrUpdateRating k a t r u d = (Return (ResultRatings res), d') ->
       getUserRating k u d' = (Return r, d').
Proof.
  intros Hnone. split.
  - unfold getUserRating, bind, select_user_rating, gets, ret.
    destruct k as [| |ks], u as [| |us]; simpl; try reflexivity.
    rewrite (Hnone ks us eq_refl eq_refl). reflexivity.
  - intros res d' Hrun.
    destruct (addOrUpdateRating_outcome k a t r u d)
      as [(ks & us & v & _ & _ & _ & Hdup)
         |[[e He]|(ks & rs & us & row0 & -> & -> & -> & _ & _ & Hok)]].
    + rewrite Hdup in Hrun. discriminate.
    + rewrite He in Hrun. discriminate.
    + rewrite Hok in Hrun. inversion Hrun; subst.
      unfold getUserRating, bind, select_user_rating, gets, ret, with_vote. simpl.
      rewrite lookup_insert_eq. reflexivity.
Qed.

Lemma getUserVote_before_and_after_witness :
  let d' := snd (addOrUpdateRating (JStr "song") (JStr "Artist") (JStr "Title") (JStr "down")
                   (JStr "user_123") empty_database) in
  getUserRating (JStr "song") (JStr "user_123") empty_database = (Return JNull, empty_database)
  /\ getUserRating (JStr "song") (JStr "user_123") d' = (Return (JStr "down"), d').
Proof.
  intros d'.
  destruct (getUserVote_before_and_after empty_database (JStr "song") (JStr "Artist")
              (JStr "Title") (JStr "down") (JStr "user_123") (fun _ _ _ _ => eq_refl))
    as [Hbefore Hafter].
  split; [exact Hbefore|].
  exact (Hafter (RatingsRow "song" (SongRating "Artist" "Title" 0 1)) d' eq_refl).
Defined.

(** The route over db.js reports the vote the same way: [hasRated] false and
    null before, and after a vote the stored rating type. *)
Lemma get_user_rating_route (d : database) (k u : string) :
  get_user_rating db_js (JStr k) (JStr u) d
  = (Return {| status := 200;
               body := match user_ratings d !! (k, u) with
                       | Some r => UserRatingBody (truthy (JStr r)) (JStr r)
                       | None => UserRatingBody false JNull
                       end |}, d).
Proof.
  unfold get_user_rating, try_catch, bind, db_js, getUserRating, select_user_rating, gets, ret.
  simpl. destruct (user_ratings d !! (k, u)); reflexivity.
Qed.

(** C3. However a call of [addOrUpdateRating] ends: if it throws, the database
    afterwards is the database before; and in every case either nothing was
    written, or the whole vote was: the call returned the ratings, the user's
    vote is recorded where there was none, and the song's counted votes are
    exactly one more.  The rolled-back writes include those the transaction had
    already made before the failing statement. *)
Theorem castVote_all_or_nothing (k a t r u : jsval) (d d' : database)
    (c : completion rating_result) :
  addOrUpdateRating k a t r u d = (c, d') ->
  (forall e, c = Throw e -> d' = d)
  /\ (d' = d
      \/ exists ks us rs res,
           k = JStr ks /\ u = JStr us /\ r = JStr rs
           /\ c = Return (ResultRatings res)
           /\ user_ratings d !! (ks, us) = None
           /\ user_ratings d' !! (ks, us) = Some rs
           /\ votes_counted ks d' = votes_counted ks d + 1).
Proof.
  intros Hrun.
  destruct (addOrUpdateRating_outcome k a t r u d)
    as [(ks & us & v & _ & _ & _ & Hdup)
       |[[e He]|(ks & rs & us & row0 & -> & -> & -> & Hvote & Hrow & Hok)]].
  - rewrite Hdup in Hrun. inversion Hrun; subst. split; [reflexivity|left; reflexivity].
  - rewrite He in Hrun. inversion Hrun; subst. split; [reflexivity|left; reflexivity].
  - rewrite Hok in Hrun. inversion Hrun; subst. split; [discriminate|].
    right. exists ks, us, rs, (RatingsRow ks (increment (rating_field (JStr rs)) row0)).
    split_and!; try reflexivity; try assumption.
    + unfold with_vote; simpl. apply lookup_insert_eq.
    + unfold votes_counted, with_vote; simpl. rewrite lookup_insert_eq.
      destruct Hrow as [Hrow|[Hrow (sa & st & _ & _ & ->)]]; rewrite Hrow;
        destruct (rating_field (JStr rs)); simpl; lia.
Qed.

(** A call with a null user id: the transaction inserts the song's row and
    increments it, then the vote insert hits NOT NULL; the call throws and the
    database is the one before the call. *)
Lemma castVote_all_or_nothing_witness :
  fst (addOrUpdateRating (JStr "song") (JStr "Artist") (JStr "Title") (JStr "up") JNull
         empty_database)
  = Throw (SqliteError "NOT NULL constraint failed: user_ratings.user_id")
  /\ snd (addOrUpdateRating (JStr "song") (JStr "Artist") (JStr "Title") (JStr "up") JNull
            empty_database)
     = empty_database.
Proof.
  split; [reflexivity|].
  exact (proj1 (castVote_all_or_nothing (JStr "song") (JStr "Artist") (JStr "Title") (JStr "up")
                  JNull empty_database _ _ eq_refl)
               (SqliteError "NOT NULL constraint failed: user_ratings.user_id") eq_refl).
Defined.

(** Without [db.transaction] around it, the same function body would leave the
    incremented row behind with no vote recorded. *)
Example body_without_transaction_is_partial :
  let d' := snd (rating_transaction_body (JStr "song") (JStr "Artist") (JStr "Title")
                   (JStr "up") JNull empty_database) in
  song_ratings d' !! "song" = Some (SongRating "Artist" "Title" 1 0)
  /\ user_ratings d' = ∅.
Proof. split; reflexivity. Qed.

(** A submit-vote request whose body was parsed and in which one of the five
    fields is missing (or otherwise falsy: null or the empty string), or whose
    rating type is neither 'up' nor 'down', is answered with status 400 and an
    error message, and the store is handed back untouched.  This holds for
    every module put in the place of db.js and every store, so none of the
    module's functions is called: no song row and no vote is created. *)
Lemma post_ratings_rejects_invalid {St : Type} (db : db_module St) (b : rating_request)
    (s : St) :
  js_not (req_songKey b) = true \/ js_not (req_artist b) = true
  \/ js_not (req_title b) = true \/ js_not (req_ratingType b) = true
  \/ js_not (req_userId b) = true
  \/ (req_ratingType b <> JStr "up" /\ req_ratingType b <> JStr "down") ->
  exists msg,
    post_ratings db (BodyObject b) s = (Return {| status := 400; body := ErrorBody msg |}, s)
    /\ (msg = "Missing required fields" \/ msg = "Invalid rating type").
Proof.
  intros Hbad. rewrite post_ratings_parsed. unfold post_ratings_fields, try_catch.
  destruct (js_not (req_songKey b) || js_not (req_artist b) || js_not (req_title b)
            || js_not (req_ratingType b) || js_not (req_userId b)) eqn:Hmissing.
  - exists "Missing required fields". split; [reflexivity|left; reflexivity].
  - repeat (apply orb_false_elim in Hmissing; destruct Hmissing as [Hmissing ?]).
    destruct Hbad as [Hb|[Hb|[Hb|[Hb|[Hb|[Hup Hdown]]]]]]; try congruence.
    unfold strict_ne, strict_eq.
    rewrite !bool_decide_eq_false_2 by assumption. simpl.
    exists "Invalid rating type". split; [reflexivity|right; reflexivity].
Qed.

(** A parsed request without [userId], sent to db.js on the fresh database and
    to the recording module: status 400, no row, no call. *)
Example post_ratings_rejects_missing_userId :
  let b := BodyObject {| req_songKey := JStr "song"; req_artist := JStr "Artist";
                         req_title := JStr "Title"; req_ratingType := JStr "up";
                         req_userId := JUndefined |} in
  post_ratings db_js b empty_database
  = (Return {| status := 400; body := ErrorBody "Missing required fields" |}, empty_database)
  /\ post_ratings recording_module b []
     = (Return {| status := 400; body := ErrorBody "Missing required fields" |}, []).
Proof. split; reflexivity. Qed.

(** A request with rating type 'sideways'. *)
Example post_ratings_sideways :
  post_ratings db_js
    (BodyObject {| req_songKey := JStr "song"; req_artist := JStr "Artist";
                   req_title := JStr "Title"; req_ratingType := JStr "sideways";
                   req_userId := JStr "user_1" |}) empty_database
  = (Return {| status := 400; body := ErrorBody "Invalid rating type" |}, empty_database).
Proof. reflexivity. Qed.

(** A well-formed request does reach the module. *)
Example post_ratings_valid_calls_module :
  snd (post_ratings recording_module
         (BodyObject {| req_songKey := JStr "song"; req_artist := JStr "Artist";
                        req_title := JStr "Title"; req_ratingType := JStr "up";
                        req_userId := JStr "user_1" |}) [])
  = [OpAddOrUpdateRating (JStr "song") (JStr "Artist") (JStr "Title") (JStr "up")
       (JStr "user_1")].
Proof. reflexivity. Qed.

(** C4. A submit-vote request without a parsed body, in which all five fields
    are therefore missing, is not answered with a client error: destructuring
    [req.body] throws inside the [try], and the [catch] answers status 500 with
    the TypeError's message.  The store is handed back untouched, for every
    module in the place of db.js: no function of the module is called. *)
Theorem submit_vote_without_body_is_answered_500 {St : Type} (db : db_module St) (s : St) :
  post_ratings db BodyUndefined s
  = (Return {| status := 500;
               body := ErrorBody
                 "Cannot destructure property 'songKey' of 'req.body' as it is undefined." |},
     s).
Proof. reflexivity. Qed.

(** ** Many users voting up on one song *)

(** The run from any database in which none of the users has a vote on the
    song yet: every call returns the ratings, the i-th with thumbs_up raised
    by i + 1, and thumbs_down never moves. *)
Lemma cast_votes_up_from (k : string) (calls : list (string * string * string)) :
  forall (d : database) (n m : Z),
    NoDup (snd <$> calls) ->
    (forall u, u ∈ (snd <$> calls) -> user_ratings d !! (k, u) = None) ->
    stored_thumbs_up k d = n ->
    stored_thumbs_down k d = m ->
    exists rs d',
      cast_votes (JStr k) (JStr "up") calls d = (Return rs, d')
      /\ length rs = length calls
      /\ (forall (i : nat) res, rs !! i = Some res ->
            exists row, res = ResultRatings (RatingsRow k row)
                        /\ thumbs_up row = n + Z.of_nat i + 1 /\ thumbs_down row = m)
      /\ stored_thumbs_up k d' = n + Z.of_nat (length calls)
      /\ stored_thumbs_down k d' = m.
Proof.
  induction calls as [|[[a t] u] rest IH]; intros d n m Hnodup Hfresh Hup Hdown.
  - exists [], d. simpl. split_and!; try reflexivity; try assumption; try lia.
    intros i res Hi. rewrite lookup_nil in Hi. discriminate.
  - simpl in Hnodup. apply NoDup_cons in Hnodup as [Hnotin Hnodup].
    assert (Hvote : user_ratings d !! (k, u) = None).
    { apply Hfresh. simpl. apply list_elem_of_here. }
    destruct (first_vote_effect k a t "up" u d Hvote)
      as (row & d1 & Hrun & Hrowdef & Hrow & Huser & _ & Husers).
    destruct (default_row_counts k a t d) as [Hup0 Hdown0].
    rewrite rating_field_up in Hrowdef.
    assert (Hrow_up : thumbs_up row = n + 1) by (subst row; simpl; lia).
    assert (Hrow_down : thumbs_down row = m) by (subst row; simpl; lia).
    destruct (IH d1 (n + 1) m Hnodup) as (rs & d' & Hrest & Hlen & Hres & Hup' & Hdown').
    + intros u' Hin. rewrite Husers.
      * apply Hfresh. simpl. apply list_elem_of_further. exact Hin.
      * intros Heq. inversion Heq; subst. contradiction.
    + unfold stored_thumbs_up. rewrite Hrow. exact Hrow_up.
    + unfold stored_thumbs_down. rewrite Hrow. exact Hrow_down.
    + exists (ResultRatings (RatingsRow k row) :: rs), d'.
      split_and!.
      * simpl. unfold bind at 1. rewrite Hrun. unfold bind at 1. rewrite Hrest. reflexivity.
      * simpl. lia.
      * intros [|i] res Hi; simpl in Hi.
        -- inversion Hi; subst res. exists row. split_and!; [reflexivity|lia|assumption].
        -- destruct (Hres i res Hi) as (row' & -> & Hu' & Hd').
           exists row'. split_and!; [reflexivity|lia|assumption].
      * rewrite Hup'. simpl length. lia.
      * exact Hdown'.
Qed.

(** C6. N calls of [addOrUpdateRating] with pairwise different user ids, each
    voting 'up' on the same song key, from a database with no row and no vote
    for that key: every call returns the ratings (the i-th call reports
    thumbs_up = i and thumbs_down = 0), and afterwards [getSongRatings] returns
    thumbs_up = N and thumbs_down = 0. *)
Theorem distinct_users_voting_up (k : string) (calls : list (string * string * string))
    (d : database) :
  NoDup (snd <$> calls) ->
  song_ratings d !! k = None ->
  (forall u, user_ratings d !! (k, u) = None) ->
  exists rs d',
    cast_votes (JStr k) (JStr "up") calls d = (Return rs, d')
    /\ length rs = length calls
    /\ (forall (i : nat) res, rs !! i = Some res ->
          exists row, res = ResultRatings (RatingsRow k row)
                      /\ thumbs_up row = Z.of_nat i + 1 /\ thumbs_down row = 0)
    /\ exists res, getSongRatings (JStr k) d' = (Return res, d')
                   /\ ratings_thumbs_up res = Z.of_nat (length calls)
                   /\ ratings_thumbs_down res = 0.
Proof.
  intros Hnodup Hrow Hfresh.
  destruct (cast_votes_up_from k calls d 0 0 Hnodup) as (rs & d' & Hrun & Hlen & Hres & Hup & Hdown).
  - intros u _. apply Hfresh.
  - unfold stored_thumbs_up. rewrite Hrow. reflexivity.
  - unfold stored_thumbs_down. rewrite Hrow. reflexivity.
  - exists rs, d'. split; [assumption|]. split; [assumption|]. split.
    + intros i res Hi. destruct (Hres i res Hi) as (row & -> & Hu & Hd).
      exists row. split_and!; [reflexivity|lia|assumption].
    + rewrite getSongRatings_lookup.
      unfold stored_thumbs_up in Hup. unfold stored_thumbs_down in Hdown.
      destruct (song_ratings d' !! k) as [row|]; eexists; split_and!;
        try reflexivity; simpl; lia.
Qed.

Lemma distinct_users_voting_up_witness :
  exists rs d',
    cast_votes (JStr "song") (JStr "up")
      [("Artist", "Title", "user_1"); ("Artist", "Title", "user_2"); ("Artist", "Title", "user_3")]
      empty_database = (Return rs, d')
    /\ length rs = 3%nat
    /\ exists res, getSongRatings (JStr "song") d' = (Return res, d')
                   /\ ratings_thumbs_up res = 3 /\ ratings_thumbs_down res = 0.
Proof.
  assert (Hnodup : NoDup (snd <$> [("Artist", "Title", "user_1"); ("Artist", "Title", "user_2");
                                    ("Artist", "Title", "user_3")])).
  { compute_done. }
  destruct (distinct_users_voting_up "song" _ empty_database Hnodup eq_refl (fun _ => eq_refl))
    as (rs & d' & Hrun & Hlen & _ & Hget).
  exists rs, d'. split_and!; assumption.
Defined.

(** ** Counts over histories *)

(** An operation either leaves the database as it is, or adds one whole vote on
    top of the song's row (a fresh row counting from zero if there was none). *)
Lemma run_op_cases (o : store_op) (d : database) :
  run_op o d = d
  \/ exists ks us rs f row0,
       (song_ratings d !! ks = Some row0
        \/ (song_ratings d !! ks = None /\ thumbs_up row0 = 0 /\ thumbs_down row0 = 0))
       /\ run_op o d = with_vote ks us rs f row0 d.
Proof.
  destruct o as [k|k a t r u|k u]; simpl.
  - left. reflexivity.
  - destruct (addOrUpdateRating_outcome k a t r u d)
      as [(ks & us & v & _ & _ & _ & Hdup)
         |[[e He]|(ks & rs & us & row0 & _ & _ & _ & _ & Hrow & Hok)]].
    + left. rewrite Hdup. reflexivity.
    + left. rewrite He. reflexivity.
    + right. exists ks, us, rs, (rating_field r), row0. split.
      * destruct Hrow as [Hrow|[Hrow (sa & st & _ & _ & ->)]]; [left|right]; auto.
      * rewrite Hok. reflexivity.
  - left. reflexivity.
Qed.

Lemma increment_counts (f : count_field) (row : song_rating) :
  thumbs_up row <= thumbs_up (increment f row)
  /\ thumbs_down row <= thumbs_down (increment f row).
Proof. destruct f; simpl; lia. Qed.

Lemma run_op_counts_monotone (o : store_op) (d : database) (k : string) (row : song_rating) :
  song_ratings d !! k = Some row ->
  exists row', song_ratings (run_op o d) !! k = Some row'
               /\ thumbs_up row <= thumbs_up row' /\ thumbs_down row <= thumbs_down row'.
Proof.
  intros Hrow.
  destruct (run_op_cases o d) as [->|(ks & us & rs & f & row0 & Hrow0 & ->)].
  - exists row. split_and!; [assumption|lia|lia].
  - unfold with_vote; simpl. destruct (decide (ks = k)) as [->|Hne].
    + rewrite lookup_insert_eq. exists (increment f row0). split; [reflexivity|].
      destruct Hrow0 as [Hrow0|[Hrow0 _]]; [|congruence].
      assert (row0 = row) by congruence. subst row0. apply increment_counts.
    + rewrite lookup_insert_ne by assumption. exists row. split_and!; [assumption|lia|lia].
Qed.

Lemma run_op_counts_nonnegative (o : store_op) (d : database) :
  counts_nonnegative d -> counts_nonnegative (run_op o d).
Proof.
  intros Hd.
  destruct (run_op_cases o d) as [->|(ks & us & rs & f & row0 & Hrow0 & ->)]; [assumption|].
  intros k row. unfold with_vote; simpl. destruct (decide (ks = k)) as [->|Hne].
  - rewrite lookup_insert_eq. intros Heq; inversion Heq; subst row.
    pose proof (increment_counts f row0) as [Hup Hdown].
    destruct Hrow0 as [Hrow0|(_ & Hup0 & Hdown0)].
    + destruct (Hd k row0 Hrow0). lia.
    + lia.
  - rewrite lookup_insert_ne by assumption. apply Hd.
Qed.

Lemma reachable_counts_nonnegative (d : database) : reachable d -> counts_nonnegative d.
Proof.
  induction 1 as [|o d Hreach IH].
  - intros k row. unfold empty_database; simpl. rewrite lookup_empty. discriminate.
  - apply run_op_counts_nonnegative. exact IH.
Qed.

(** C8. In every database the module can reach from a fresh file, every row's
    thumbs_up and thumbs_down are at least zero; and whichever of the three
    store operations runs next, with whatever arguments, every row is still
    there afterwards with both counts at least what they were. *)
Theorem counts_never_decrease (d : database) (o : store_op) :
  reachable d ->
  (forall k row, song_ratings d !! k = Some row -> 0 <= thumbs_up row /\ 0 <= thumbs_down row)
  /\ (forall k row, song_ratings d !! k = Some row ->
        exists row', song_ratings (run_op o d) !! k = Some row'
                     /\ thumbs_up row <= thumbs_up row'
                     /\ thumbs_down row <= thumbs_down row')
  /\ (forall k row', song_ratings (run_op o d) !! k = Some row' ->
        0 <= thumbs_up row' /\ 0 <= thumbs_down row').
Proof.
  intros Hreach. split_and!.
  - apply reachable_counts_nonnegative. exact Hreach.
  - intros k row. apply run_op_counts_monotone.
  - apply run_op_counts_nonnegative. apply reachable_counts_nonnegative. exact Hreach.
Qed.

Lemma counts_never_decrease_witness :
  let d := run_op (OpAddOrUpdateRating (JStr "song") (JStr "Artist") (JStr "Title")
                     (JStr "up") (JStr "user_1")) empty_database in
  let d' := run_op (OpAddOrUpdateRating (JStr "song") (JStr "Artist") (JStr "Title")
                      (JStr "down") (JStr "user_2")) d in
  reachable d
  /\ song_ratings d !! "song" = Some (SongRating "Artist" "Title" 1 0)
  /\ exists row', song_ratings d' !! "song" = Some row'
                  /\ 1 <= thumbs_up row' /\ 0 <= thumbs_down row'.
Proof.
  intros d d'.
  assert (Hreach : reachable d) by (apply reachable_step, reachable_init).
  split; [exact Hreach|]. split; [reflexivity|].
  destruct (counts_never_decrease d
              (OpAddOrUpdateRating (JStr "song") (JStr "Artist") (JStr "Title") (JStr "down")
                 (JStr "user_2")) Hreach) as (_ & Hmono & _).
  exact (Hmono "song" (SongRating "Artist" "Title" 1 0) eq_refl).
Defined.

(** ** Two calls for the same song and user *)

(** Three steps of a call, taken in one go, are the call. *)
Lemma call_steps_are_the_call (a : call_args) (d : database) :
  let '(pc1, d1) := call_step a AtCheck d in
  let '(pc2, d2) := call_step a pc1 d1 in
  let '(pc3, d3) := call_step a pc2 d2 in
  (pc3, d3)
  = (Finished (fst (addOrUpdateRating (arg_songKey a) (arg_artist a) (arg_title a)
                      (arg_ratingType a) (arg_userId a) d)),
     snd (addOrUpdateRating (arg_songKey a) (arg_artist a) (arg_title a)
            (arg_ratingType a) (arg_userId a) d)).
Proof.
  destruct a as [k ar t r u].
  cbn [arg_songKey arg_artist arg_title arg_ratingType arg_userId].
  unfold addOrUpdateRating, bind, ret.
  unfold call_step at 1.
  cbn [arg_songKey arg_artist arg_title arg_ratingType arg_userId].
  destruct (select_user_rating k u d) as [[[row|]|e] d1]; try reflexivity.
  cbn [call_step arg_songKey arg_artist arg_title arg_ratingType arg_userId].
  destruct (transaction (rating_transaction_body k ar t r u) d1) as [[x|e] d2].
  - cbn [call_step arg_songKey arg_artist arg_title arg_ratingType arg_userId fst snd].
    destruct (getSongRatings k d2) as [[res|e] d3]; reflexivity.
  - reflexivity.
Qed.



Lemma votes_counted_with_vote (ks us rs : string) (f : count_field) (row0 : song_rating)
    (d : database) :
  song_ratings d !! ks = Some row0
  \/ (song_ratings d !! ks = None /\ thumbs_up row0 = 0 /\ thumbs_down row0 = 0) ->
  votes_counted ks (with_vote ks us rs f row0 d) = votes_counted ks d + 1.
Proof.
  intros Hrow. unfold votes_counted, with_vote; simpl. rewrite lookup_insert_eq.
  destruct Hrow as [Hrow|(Hrow & Hup & Hdown)]; rewrite Hrow; destruct f; simpl; lia.
Qed.









(** One call after the other: the second is turned away by the check. *)
Example one_after_the_other :
  let call1 := CallArgs (JStr "song") (JStr "Artist") (JStr "Title") (JStr "up") (JStr "user_1") in
  let call2 := CallArgs (JStr "song") (JStr "Artist") (JStr "Title") (JStr "down") (JStr "user_1") in
  let final := run_schedule call1 call2 [true; true; true; false; false; false]
                 (both_at_check empty_database) in
  first_pc final
  = Finished (Return (ResultRatings (RatingsRow "song" (SongRating "Artist" "Title" 1 0))))
  /\ second_pc final = Finished (Return (ResultError "User has already rated this song")).
Proof. split; reflexivity. Qed.

(** ** The end-to-end scenario

    Artist "Test Artist", title "Test Song", song key btoa("Test Artist|||Test
    Song").  user_1 votes up, user_2 votes down, user_1 tries again. *)
Example end_to_end_scenario :
  let songKey := JStr "VGVzdCBBcnRpc3R8fHxUZXN0IFNvbmc=" in
  let vote r u := addOrUpdateRating songKey (JStr "Test Artist") (JStr "Test Song")
                    (JStr r) (JStr u) in
  let run :=
    let* r1 := vote "up" "user_1" in
    let* r2 := vote "down" "user_2" in
    let* r3 := vote "down" "user_1" in
    let* after := getSongRatings songKey in
    ret (r1, r2, r3, after) in
  let row up down := RatingsRow "VGVzdCBBcnRpc3R8fHxUZXN0IFNvbmc="
                       (SongRating "Test Artist" "Test Song" up down) in
  fst (run empty_database)
  = Return (ResultRatings (row 1 0), ResultRatings (row 1 1),
            ResultError "User has already rated this song", row 1 1).
Proof. reflexivity. Qed.

(** * Further properties of the store *)

(** An operation leaves the database as it is, or records one vote that was
    not there and bumps the count its rating type names. *)
Lemma run_op_vote_cases (o : store_op) (d : database) :
  run_op o d = d
  \/ exists ks us rs row0,
       user_ratings d !! (ks, us) = None
       /\ (song_ratings d !! ks = Some row0
           \/ (song_ratings d !! ks = None /\ exists sa st, row0 = new_song_rating sa st))
       /\ run_op o d = with_vote ks us rs (rating_field (JStr rs)) row0 d.
Proof.
  destruct o as [k|k a t r u|k u]; simpl.
  - left. reflexivity.
  - destruct (addOrUpdateRating_outcome k a t r u d)
      as [(ks & us & v & _ & _ & _ & Hdup)
         |[[e He]|(ks & rs & us & row0 & _ & -> & _ & Hvote & Hrow & Hok)]].
    + left. rewrite Hdup. reflexivity.
    + left. rewrite He. reflexivity.
    + right. exists ks, us, rs, row0. split_and!; [assumption| |rewrite Hok; reflexivity].
      destruct Hrow as [Hrow|[Hrow (sa & st & _ & _ & ->)]]; [left|right]; eauto.
  - left. reflexivity.
Qed.



Lemma stored_counts_with_vote (k ks us rs : string) (row0 : song_rating) (d : database) :
  song_ratings d !! ks = Some row0
  \/ (song_ratings d !! ks = None /\ exists sa st, row0 = new_song_rating sa st) ->
  stored_thumbs_up k (with_vote ks us rs (rating_field (JStr rs)) row0 d)
  = stored_thumbs_up k d + (if decide (ks = k /\ rs = "up") then 1 else 0)
  /\ stored_thumbs_down k (with_vote ks us rs (rating_field (JStr rs)) row0 d)
     = stored_thumbs_down k d + (if decide (ks = k /\ rs <> "up") then 1 else 0).
Proof.
  intros Hrow. unfold stored_thumbs_up, stored_thumbs_down, with_vote; simpl.
  destruct (decide (ks = k)) as [->|Hne].
  - rewrite lookup_insert_eq.
    assert (Hcounts : thumbs_up row0 = match song_ratings d !! k with
                                       | Some row => thumbs_up row | None => 0 end
                      /\ thumbs_down row0 = match song_ratings d !! k with
                                            | Some row => thumbs_down row | None => 0 end).
    { destruct Hrow as [Hrow|[Hrow (sa & st & ->)]]; rewrite Hrow; split; reflexivity. }
    destruct Hcounts as [Hup Hdown]. rewrite <- Hup, <- Hdown.
    destruct (decide (rs = "up")) as [->|Hrs].
    + rewrite rating_field_up. simpl.
      rewrite decide_True by auto. rewrite decide_False by tauto. lia.
    + rewrite rating_field_other by assumption. simpl.
      rewrite decide_False by tauto. rewrite decide_True by auto. lia.
  - rewrite lookup_insert_ne by assumption.
    rewrite !decide_False by tauto. lia.
Qed.


Lemma run_op_rows_match_votes (o : store_op) (d : database) :
  rows_match_votes d -> rows_match_votes (run_op o d).
Proof.
  intros Hd.
  destruct (run_op_vote_cases o d) as [->|(ks & us & rs & row0 & Hvote & Hrow & ->)];
    [assumption|].
  intros k. unfold with_vote; simpl.
  destruct (decide (ks = k)) as [->|Hne].
  - rewrite lookup_insert_eq. split; [|eauto].
    intros _. exists us, rs. apply lookup_insert_eq.
  - rewrite lookup_insert_ne by assumption. rewrite (Hd k).
    split; intros (u & r & Hur); exists u, r.
    + rewrite lookup_insert_ne by congruence. exact Hur.
    + rewrite lookup_insert_ne in Hur by congruence. exact Hur.
Qed.



(** X2. In every database reached from a fresh file, a song has a row exactly
    when at least one vote on it is recorded: no row without a vote, no vote
    without a row. *)
Theorem reachable_row_iff_vote (d : database) (k : string) :
  reachable d ->
  is_Some (song_ratings d !! k) <-> exists u r, user_ratings d !! (k, u) = Some r.
Proof.
  intros Hreach. revert k.
  change (rows_match_votes d).
  induction Hreach as [|o d Hreach IH].
  - intros k. unfold empty_database; simpl. rewrite lookup_empty. split.
    + intros [x Hx]. discriminate.
    + intros (u & r & Hur). rewrite lookup_empty in Hur. discriminate.
  - apply run_op_rows_match_votes. exact IH.
Qed.

Lemma reachable_row_iff_vote_witness :
  let d := run_op (OpAddOrUpdateRating (JStr "song") (JStr "Artist") (JStr "Title")
                     (JStr "up") (JStr "user_1")) empty_database in
  is_Some (song_ratings d !! "song")
  <-> exists u r, user_ratings d !! ("song", u) = Some r.
Proof.
  intros d. apply reachable_row_iff_vote.
  apply reachable_step, reachable_init.
Defined.

Lemma run_op_keeps_vote (o : store_op) (d : database) (k u v : string) :
  user_ratings d !! (k, u) = Some v -> user_ratings (run_op o d) !! (k, u) = Some v.
Proof.
  intros Hv.
  destruct (run_op_vote_cases o d) as [->|(ks & us & rs & row0 & Hvote & _ & ->)];
    [assumption|].
  unfold with_vote; simpl. rewrite lookup_insert_ne; [assumption|].
  intros Heq. inversion Heq; subst. congruence.
Qed.

Lemma run_op_keeps_artist_title (o : store_op) (d : database) (k : string)
    (row : song_rating) :
  song_ratings d !! k = Some row ->
  exists row', song_ratings (run_op o d) !! k = Some row'
               /\ artist row' = artist row /\ title row' = title row.
Proof.
  intros Hrow.
  destruct (run_op_vote_cases o d) as [->|(ks & us & rs & row0 & _ & Hrow0 & ->)].
  - exists row. auto.
  - unfold with_vote; simpl. destruct (decide (ks = k)) as [->|Hne].
    + rewrite lookup_insert_eq. eexists. split; [reflexivity|].
      destruct Hrow0 as [Hrow0|[Hrow0 _]]; [|congruence].
      assert (row0 = row) by congruence. subst row0.
      destruct (rating_field (JStr rs)); split; reflexivity.
    + rewrite lookup_insert_ne by assumption. exists row. auto.
Qed.

(** X3. A recorded vote is never changed or removed: whatever store functions
    run afterwards, with whatever arguments, the user's vote on the song is
    still recorded with the same rating type. *)
Theorem recorded_vote_is_permanent (ops : list store_op) (d : database) (k u v : string) :
  user_ratings d !! (k, u) = Some v ->
  user_ratings (run_ops ops d) !! (k, u) = Some v.
Proof.
  revert d. induction ops as [|o ops IH]; intros d Hv; simpl.
  - exact Hv.
  - apply IH. apply run_op_keeps_vote. exact Hv.
Qed.

Lemma recorded_vote_is_permanent_witness :
  let d := run_op (OpAddOrUpdateRating (JStr "song") (JStr "Artist") (JStr "Title")
                     (JStr "up") (JStr "user_1")) empty_database in
  user_ratings
    (run_ops [OpAddOrUpdateRating (JStr "song") (JStr "Artist") (JStr "Title") (JStr "down")
                (JStr "user_1");
              OpAddOrUpdateRating (JStr "song") (JStr "Other") (JStr "Other") (JStr "down")
                (JStr "user_2")] d)
    !! ("song", "user_1") = Some "up".
Proof.
  intros d. apply recorded_vote_is_permanent. reflexivity.
Defined.

(** X4. The artist and title of a song's row are those it was created with:
    whatever store functions run afterwards, also votes on the same song key
    that pass another artist or title, the row is still there with the same
    artist and title. *)
Theorem artist_and_title_are_permanent (ops : list store_op) (d : database) (k : string)
    (row : song_rating) :
  song_ratings d !! k = Some row ->
  exists row', song_ratings (run_ops ops d) !! k = Some row'
               /\ artist row' = artist row /\ title row' = title row.
Proof.
  revert d row. induction ops as [|o ops IH]; intros d row Hrow; simpl.
  - exists row. auto.
  - destruct (run_op_keeps_artist_title o d k row Hrow) as (row1 & Hrow1 & Ha & Ht).
    destruct (IH _ _ Hrow1) as (row' & Hrow' & Ha' & Ht').
    exists row'. split_and!; [assumption|congruence|congruence].
Qed.

Lemma artist_and_title_are_permanent_witness :
  let d := run_op (OpAddOrUpdateRating (JStr "song") (JStr "Artist") (JStr "Title")
                     (JStr "up") (JStr "user_1")) empty_database in
  exists row',
    song_ratings
      (run_ops [OpAddOrUpdateRating (JStr "song") (JStr "Other") (JStr "Name") (JStr "down")
                  (JStr "user_2")] d) !! "song" = Some row'
    /\ artist row' = "Artist" /\ title row' = "Title".
Proof.
  intros d.
  exact (artist_and_title_are_permanent _ d "song" (SongRating "Artist" "Title" 1 0) eq_refl).
Defined.

(** X5. For arguments that are strings, null or undefined,
    [addOrUpdateRating] throws exactly when no vote of the user on the song
    is recorded and a NOT NULL column would get null: the song key, user id or
    rating type is null or undefined, or the song has no row yet and the artist
    or title is null or undefined.  When it throws the database is unchanged.
    In particular a null artist or title is accepted once the song has a
    row. *)
Theorem addOrUpdateRating_throws_iff (k a t r u : jsval) (d : database) :
  (exists e, addOrUpdateRating k a t r u d = (Throw e, d))
  <-> ((forall ks us, k = JStr ks -> u = JStr us -> user_ratings d !! (ks, us) = None)
       /\ (bind_param k = None \/ bind_param u = None \/ bind_param r = None
           \/ ((forall ks, k = JStr ks -> song_ratings d !! ks = None)
               /\ (bind_param a = None \/ bind_param t = None)))).
Proof.
  split.
  - intros [e He]. split.
    + intros ks us -> ->.
      destruct (user_ratings d !! (ks, us)) as [v|] eqn:Hv; [|reflexivity].
      rewrite (addOrUpdateRating_duplicate ks us v) in He by assumption. discriminate.
    + destruct (bind_param k) as [ks|] eqn:Hk; [|left; reflexivity].
      destruct (bind_param u) as [us|] eqn:Hu; [|right; left; reflexivity].
      destruct (bind_param r) as [rs|] eqn:Hr; [|right; right; left; reflexivity].
      right. right. right.
      destruct k as [| |ks']; try discriminate. destruct u as [| |us']; try discriminate.
      destruct r as [| |rs']; try discriminate.
      simpl in Hk, Hu, Hr. inversion Hk; inversion Hu; inversion Hr; subst ks' us' rs'.
      destruct (user_ratings d !! (ks, us)) as [v|] eqn:Hv.
      { rewrite (addOrUpdateRating_duplicate ks us v) in He by assumption. discriminate. }
      assert (Hsel : select_user_rating (JStr ks) (JStr us) d = (Return None, d)).
      { unfold select_user_rating, gets. simpl. rewrite Hv. reflexivity. }
      destruct (song_ratings d !! ks) as [row|] eqn:Hrow.
      { exfalso. revert He. unfold addOrUpdateRating. unfold bind at 1. rewrite Hsel.
        unfold bind at 1.
        rewrite rating_transaction_existing with (row0 := row) by assumption.
        unfold bind. rewrite getSongRatings_with_vote. discriminate. }
      split; [intros ks' Hks'; inversion Hks'; subst; assumption|].
      destruct a as [| |sa]; [left; reflexivity|left; reflexivity|].
      destruct t as [| |st]; [right; reflexivity|right; reflexivity|].
      exfalso. rewrite addOrUpdateRating_first in He by assumption. discriminate.
  - intros [Hnovote Hnull].
    destruct (addOrUpdateRating_outcome k a t r u d)
      as [(ks & us & v & -> & -> & Hv & _)
         |[[e He]|(ks & rs & us & row0 & -> & -> & -> & _ & Hrow & _)]].
    + rewrite (Hnovote ks us eq_refl eq_refl) in Hv. discriminate.
    + exists e. exact He.
    + exfalso. simpl in Hnull.
      destruct Hnull as [H|[H|[H|[Habsent Hat]]]]; try discriminate.
      specialize (Habsent ks eq_refl).
      destruct Hrow as [Hrow|[_ (sa & st & -> & -> & _)]]; [congruence|].
      simpl in Hat. destruct Hat; discriminate.
Qed.

(** The database test of the rollback: a null song key. *)
Lemma addOrUpdateRating_throws_iff_witness :
  exists e, addOrUpdateRating JNull (JStr "Artist") (JStr "Title") (JStr "up") (JStr "user")
              empty_database = (Throw e, empty_database).
Proof.
  apply (proj2 (addOrUpdateRating_throws_iff JNull (JStr "Artist") (JStr "Title") (JStr "up")
                  (JStr "user") empty_database)).
  split.
  - intros ks us Hk. discriminate.
  - left. reflexivity.
Defined.

(** X6. Once the song has a row, the artist and title passed to
    [addOrUpdateRating] play no part: any two calls that differ only in them
    return the same and leave the same database. *)
Theorem artist_and_title_ignored_for_known_song (k : string) (a t a' t' r u : jsval)
    (row : song_rating) (d : database) :
  song_ratings d !! k = Some row ->
  addOrUpdateRating (JStr k) a t r u d = addOrUpdateRating (JStr k) a' t' r u d.
Proof.
  intros Hrow.
  assert (Hbody : forall x y,
            rating_transaction_body (JStr k) x y r u d
            = (update_song_rating (rating_field r) (JStr k) ;;
               insert_user_rating (JStr k) u r) d).
  { intros x y. unfold rating_transaction_body. unfold bind at 1.
    unfold select_song_rating, gets. simpl. rewrite Hrow. simpl.
    unfold bind at 1. unfold ret. reflexivity. }
  unfold addOrUpdateRating, bind.
  destruct (select_user_rating (JStr k) u d) as [[[v|]|e] d0] eqn:Hsel; try reflexivity.
  assert (d0 = d) by (revert Hsel; unfold select_user_rating, gets;
                      intros H; inversion H; reflexivity).
  subst d0. unfold transaction. rewrite (Hbody a t), (Hbody a' t'). reflexivity.
Qed.

Lemma artist_and_title_ignored_for_known_song_witness :
  let d := run_op (OpAddOrUpdateRating (JStr "song") (JStr "Artist") (JStr "Title")
                     (JStr "up") (JStr "user_1")) empty_database in
  addOrUpdateRating (JStr "song") JNull JUndefined (JStr "down") (JStr "user_2") d
  = addOrUpdateRating (JStr "song") (JStr "Artist") (JStr "Title") (JStr "down")
      (JStr "user_2") d.
Proof.
  intros d.
  exact (artist_and_title_ignored_for_known_song "song" JNull JUndefined (JStr "Artist")
           (JStr "Title") (JStr "down") (JStr "user_2") (SongRating "Artist" "Title" 1 0) d
           eq_refl).
Defined.

Lemma size_with_new_element (x : string) (X : gset string) :
  size ({[x]} ∪ X) = S (size (X ∖ {[x]})).
Proof. rewrite size_union_alt, size_singleton. reflexivity. Qed.

(** The users of a list of calls who have no vote on song [k] in [d]. *)
Lemma new_voters_after_vote (k u r : string) (f : count_field) (row0 : song_rating)
    (d : database) (users : list string) :
  (list_to_set (filter (fun x => user_ratings (with_vote k u r f row0 d) !! (k, x) = None)
                       users) : gset string)
  = list_to_set (filter (fun x => user_ratings d !! (k, x) = None) users) ∖ {[u]}.
Proof.
  apply set_eq. intros x.
  rewrite elem_of_difference, !elem_of_list_to_set, !list_elem_of_filter, elem_of_singleton.
  unfold with_vote; simpl.
  destruct (decide (x = u)) as [->|Hne].
  - rewrite lookup_insert_eq. split; [intros [H _]; discriminate|tauto].
  - rewrite lookup_insert_ne by congruence. tauto.
Qed.

(** X7. Any run of 'up' votes on one song, users repeating or not and whatever
    was recorded before: no call throws, every call gives a result, thumbs_up
    grows by the number of different users in the run who had no vote on the
    song before it, and thumbs_down stays. *)
Theorem repeated_users_count_once (k : string) (calls : list (string * string * string))
    (d : database) :
  exists rs d',
    cast_votes (JStr k) (JStr "up") calls d = (Return rs, d')
    /\ length rs = length calls
    /\ stored_thumbs_up k d'
       = stored_thumbs_up k d
         + Z.of_nat (size (list_to_set
                             (filter (fun u => user_ratings d !! (k, u) = None) (snd <$> calls))
                           : gset string))
    /\ stored_thumbs_down k d' = stored_thumbs_down k d.
Proof.
  revert d. induction calls as [|[[a t] u] rest IH]; intros d.
  - exists [], d. split_and!; try reflexivity.
    change (stored_thumbs_up k d = stored_thumbs_up k d + Z.of_nat (size (∅ : gset string))).
    rewrite size_empty. lia.
  - simpl. rewrite filter_cons.
    destruct (user_ratings d !! (k, u)) as [v|] eqn:Hvote.
    + destruct (IH d) as (rs & d' & Hrest & Hlen & Hup & Hdown).
      exists (duplicate_error :: rs), d'.
      rewrite decide_False by discriminate.
      split_and!; try assumption.
      * unfold bind at 1. rewrite (addOrUpdateRating_duplicate k u v) by assumption.
        unfold bind at 1. rewrite Hrest. reflexivity.
      * simpl. lia.
    + destruct (first_vote_effect k a t "up" u d Hvote)
        as (row & d1 & Hrun & Hrowdef & Hrow & _).
      assert (Hd1 : d1 = with_vote k u "up" Field_thumbs_up
                      (default (new_song_rating a t) (song_ratings d !! k)) d).
      { rewrite addOrUpdateRating_first in Hrun by assumption.
        rewrite rating_field_up in Hrun. inversion Hrun. reflexivity. }
      destruct (default_row_counts k a t d) as [Hup0 Hdown0].
      rewrite rating_field_up in Hrowdef. subst d1.
      destruct (IH (with_vote k u "up" Field_thumbs_up
                      (default (new_song_rating a t) (song_ratings d !! k)) d))
        as (rs & d' & Hrest & Hlen & Hup & Hdown).
      exists (ResultRatings (RatingsRow k row) :: rs), d'.
      rewrite decide_True by reflexivity.
      rewrite new_voters_after_vote in Hup.
      split_and!.
      * unfold bind at 1. rewrite Hrun. unfold bind at 1. rewrite Hrest. reflexivity.
      * simpl. lia.
      * rewrite Hup.
        rewrite list_to_set_cons, size_with_new_element, Nat2Z.inj_succ.
        unfold stored_thumbs_up at 1. rewrite Hrow. subst row. simpl.
        rewrite Hup0. unfold fmap. lia.
      * rewrite Hdown. unfold stored_thumbs_down at 1. rewrite Hrow. subst row. simpl. lia.
Qed.

(** Three calls of two users on a fresh song count two. *)
Example repeated_users_count_once_example :
  stored_thumbs_up "song"
    (snd (cast_votes (JStr "song") (JStr "up")
            [("Artist", "Title", "user_1"); ("Artist", "Title", "user_2");
             ("Artist", "Title", "user_1")] empty_database)) = 2.
Proof. reflexivity. Qed.

Lemma default_row_cases (k a t : string) (d : database) :
  song_ratings d !! k = Some (default (new_song_rating a t) (song_ratings d !! k))
  \/ (song_ratings d !! k = None
      /\ exists sa st, default (new_song_rating a t) (song_ratings d !! k)
                       = new_song_rating sa st).
Proof.
  destruct (song_ratings d !! k) as [row|]; simpl; [left; reflexivity|].
  right. split; [reflexivity|]. exists a, t. reflexivity.
Qed.

(** The counts after a first vote, for every song key. *)
Lemma first_vote_counts (k a t r u : string) (d : database) (k' : string) :
  user_ratings d !! (k, u) = None ->
  let d' := snd (addOrUpdateRating (JStr k) (JStr a) (JStr t) (JStr r) (JStr u) d) in
  user_ratings d' = <[(k, u) := r]> (user_ratings d)
  /\ stored_thumbs_up k' d'
     = stored_thumbs_up k' d + (if decide (k = k' /\ r = "up") then 1 else 0)
  /\ stored_thumbs_down k' d'
     = stored_thumbs_down k' d + (if decide (k = k' /\ r <> "up") then 1 else 0).
Proof.
  intros Hvote d'. subst d'. rewrite addOrUpdateRating_first by assumption.
  cbn [snd]. split; [reflexivity|].
  apply stored_counts_with_vote. apply default_row_cases.
Qed.

(** X8. Two votes by different (song, user) pairs can be cast in either order:
    both orders record the same votes and leave every song with the same
    thumbs_up and thumbs_down. *)
Theorem first_votes_commute (d : database) (k1 a1 t1 r1 u1 k2 a2 t2 r2 u2 : string) :
  (k1, u1) <> (k2, u2) ->
  user_ratings d !! (k1, u1) = None ->
  user_ratings d !! (k2, u2) = None ->
  let vote1 := addOrUpdateRating (JStr k1) (JStr a1) (JStr t1) (JStr r1) (JStr u1) in
  let vote2 := addOrUpdateRating (JStr k2) (JStr a2) (JStr t2) (JStr r2) (JStr u2) in
  let d12 := snd (vote2 (snd (vote1 d))) in
  let d21 := snd (vote1 (snd (vote2 d))) in
  user_ratings d12 = user_ratings d21
  /\ forall k, stored_thumbs_up k d12 = stored_thumbs_up k d21
               /\ stored_thumbs_down k d12 = stored_thumbs_down k d21.
Proof.
  intros Hne Hv1 Hv2 vote1 vote2 d12 d21. subst d12 d21 vote1 vote2.
  pose proof (first_vote_counts k1 a1 t1 r1 u1 d) as H1.
  pose proof (first_vote_counts k2 a2 t2 r2 u2 d) as H2.
  set (d1 := snd (addOrUpdateRating (JStr k1) (JStr a1) (JStr t1) (JStr r1) (JStr u1) d)) in *.
  set (d2 := snd (addOrUpdateRating (JStr k2) (JStr a2) (JStr t2) (JStr r2) (JStr u2) d)) in *.
  assert (Hv2' : user_ratings d1 !! (k2, u2) = None).
  { destruct (H1 k1 Hv1) as [-> _]. rewrite lookup_insert_ne by assumption. exact Hv2. }
  assert (Hv1' : user_ratings d2 !! (k1, u1) = None).
  { destruct (H2 k2 Hv2) as [-> _]. rewrite lookup_insert_ne by congruence. exact Hv1. }
  pose proof (first_vote_counts k2 a2 t2 r2 u2 d1) as H12.
  pose proof (first_vote_counts k1 a1 t1 r1 u1 d2) as H21.
  split.
  - destruct (H12 k1 Hv2') as [-> _]. destruct (H21 k1 Hv1') as [-> _].
    destruct (H1 k1 Hv1) as [-> _]. destruct (H2 k1 Hv2) as [-> _].
    apply insert_insert_ne. congruence.
  - intros k.
    destruct (H12 k Hv2') as (_ & -> & ->). destruct (H21 k Hv1') as (_ & -> & ->).
    destruct (H1 k Hv1) as (_ & -> & ->). destruct (H2 k Hv2) as (_ & -> & ->).
    split; lia.
Qed.

Lemma first_votes_commute_witness :
  let vote1 := addOrUpdateRating (JStr "song") (JStr "Artist") (JStr "Title") (JStr "up")
                 (JStr "user_1") in
  let vote2 := addOrUpdateRating (JStr "song") (JStr "Artist") (JStr "Title") (JStr "down")
                 (JStr "user_2") in
  user_ratings (snd (vote2 (snd (vote1 empty_database))))
  = user_ratings (snd (vote1 (snd (vote2 empty_database)))).
Proof.
  intros vote1 vote2.
  exact (proj1 (first_votes_commute empty_database "song" "Artist" "Title" "up" "user_1"
                  "song" "Artist" "Title" "down" "user_2" ltac:(discriminate) eq_refl eq_refl)).
Defined.

(** * Further properties of the routes *)

Lemma truthy_string (v : jsval) : truthy v = true <-> exists s, v = JStr s /\ s <> "".
Proof.
  destruct v as [| |s]; simpl.
  - split; [discriminate|intros (s & H & _); discriminate].
  - split; [discriminate|intros (s & H & _); discriminate].
  - split.
    + intros H. exists s. split; [reflexivity|].
      intros ->. discriminate.
    + intros (s' & H & Hne). inversion H; subst s'.
      rewrite bool_decide_eq_false_2 by assumption. reflexivity.
Qed.

(** Every way the submit-vote route over db.js can answer a parsed body. *)
Lemma post_ratings_db_js_cases (b : rating_request) (d : database) :
  ((js_not (req_songKey b) || js_not (req_artist b) || js_not (req_title b)
    || js_not (req_ratingType b) || js_not (req_userId b) = true)
   /\ post_ratings db_js (BodyObject b) d
      = (Return {| status := 400; body := ErrorBody "Missing required fields" |}, d))
  \/ (exists k a t r u,
        b = {| req_songKey := JStr k; req_artist := JStr a; req_title := JStr t;
               req_ratingType := JStr r; req_userId := JStr u |}
        /\ k <> "" /\ a <> "" /\ t <> "" /\ r <> "" /\ u <> ""
        /\ ((r <> "up" /\ r <> "down"
             /\ post_ratings db_js (BodyObject b) d
                = (Return {| status := 400; body := ErrorBody "Invalid rating type" |}, d))
            \/ ((r = "up" \/ r = "down")
                /\ ((exists v, user_ratings d !! (k, u) = Some v
                               /\ post_ratings db_js (BodyObject b) d
                                  = (Return {| status := 400;
                                               body := ErrorBody
                                                 "User has already rated this song" |}, d))
                    \/ (user_ratings d !! (k, u) = None
                        /\ post_ratings db_js (BodyObject b) d
                           = (Return {| status := 200;
                                        body := RatingsBody
                                          (RatingsRow k
                                             (increment (rating_field (JStr r))
                                                (default (new_song_rating a t)
                                                         (song_ratings d !! k)))) |},
                              with_vote k u r (rating_field (JStr r))
                                (default (new_song_rating a t) (song_ratings d !! k)) d)))))).
Proof.
  destruct (js_not (req_songKey b) || js_not (req_artist b) || js_not (req_title b)
            || js_not (req_ratingType b) || js_not (req_userId b)) eqn:Hmissing.
  - left. split; [reflexivity|]. rewrite post_ratings_parsed.
    unfold post_ratings_fields, try_catch. rewrite Hmissing. reflexivity.
  - right.
    pose proof Hmissing as Hfields.
    repeat (apply orb_false_elim in Hfields; destruct Hfields as [Hfields ?]).
    unfold js_not in *.
    repeat match goal with
           | H : negb (truthy _) = false |- _ =>
               apply negb_false_iff, truthy_string in H; destruct H as (? & ? & ?)
           end.
    destruct b as [bk ba bt br bu]. simpl in *. subst.
    match goal with
    | |- exists k a t r u, {| req_songKey := JStr ?k0; req_artist := JStr ?a0;
                              req_title := JStr ?t0; req_ratingType := JStr ?r0;
                              req_userId := JStr ?u0 |} = _ /\ _ =>
        exists k0, a0, t0, r0, u0; rename k0 into k, a0 into a, t0 into t, r0 into r,
                                          u0 into u
    end.
    split_and!; try reflexivity; try assumption.
    rewrite post_ratings_parsed.
    unfold post_ratings_fields, try_catch. cbn [req_songKey req_artist req_title
                                                req_ratingType req_userId].
    unfold js_not. rewrite Hmissing.
    destruct (decide (r = "up")) as [->|Hup].
    { right. split; [left; reflexivity|].
      change (strict_ne (JStr "up") (JStr "up") && strict_ne (JStr "up") (JStr "down"))
        with false. cbv iota.
      destruct (user_ratings d !! (k, u)) as [v|] eqn:Hvote.
      - left. exists v. split; [reflexivity|].
        unfold bind. cbn [mod_addOrUpdateRating db_js].
        rewrite (addOrUpdateRating_duplicate k u v) by assumption. reflexivity.
      - right. split; [reflexivity|].
        unfold bind. cbn [mod_addOrUpdateRating db_js].
        rewrite addOrUpdateRating_first by assumption. reflexivity. }
    destruct (decide (r = "down")) as [->|Hdown].
    { right. split; [right; reflexivity|].
      change (strict_ne (JStr "down") (JStr "up") && strict_ne (JStr "down") (JStr "down"))
        with false. cbv iota.
      destruct (user_ratings d !! (k, u)) as [v|] eqn:Hvote.
      - left. exists v. split; [reflexivity|].
        unfold bind. cbn [mod_addOrUpdateRating db_js].
        rewrite (addOrUpdateRating_duplicate k u v) by assumption. reflexivity.
      - right. split; [reflexivity|].
        unfold bind. cbn [mod_addOrUpdateRating db_js].
        rewrite addOrUpdateRating_first by assumption. reflexivity. }
    left. split_and!; try assumption.
    unfold strict_ne, strict_eq.
    rewrite !bool_decide_eq_false_2 by congruence. reflexivity.
Qed.

(** X10. The submit-vote route over db.js never throws, for every request and
    database.  Without a parsed body it answers 500 and writes nothing.  With
    a parsed body (its fields strings, null or absent) it answers 400 and
    leaves the database as it was, or it answers 200 and has recorded the
    requested vote of a user who had none on the song, with the song's counted
    votes one higher; it does not answer 500 then. *)
Theorem post_ratings_answers (reqBody : request_body rating_request) (d : database) :
  exists resp d',
    post_ratings db_js reqBody d = (Return resp, d')
    /\ match reqBody with
       | BodyUndefined => status resp = 500 /\ d' = d
       | BodyObject b =>
           (status resp = 400 /\ d' = d)
           \/ (status resp = 200
               /\ exists k u r,
                    req_songKey b = JStr k /\ req_userId b = JStr u
                    /\ req_ratingType b = JStr r
                    /\ (r = "up" \/ r = "down")
                    /\ user_ratings d !! (k, u) = None
                    /\ user_ratings d' !! (k, u) = Some r
                    /\ votes_counted k d' = votes_counted k d + 1)
       end.
Proof.
  destruct reqBody as [|b].
  { eexists. eexists. split; [reflexivity|]. split; reflexivity. }
  destruct (post_ratings_db_js_cases b d)
    as [[_ Hrun]|(k & a & t & r & u & -> & _ & _ & _ & _ & _ &
                  [(_ & _ & Hrun)|(Hr & [(v & _ & Hrun)|(Hvote & Hrun)])])];
    rewrite Hrun; eexists; eexists; (split; [reflexivity|]);
    try (left; split; reflexivity).
  right. split; [reflexivity|]. exists k, u, r. simpl.
  split_and!; try reflexivity; try assumption.
  - unfold with_vote; simpl. apply lookup_insert_eq.
  - apply votes_counted_with_vote.
    destruct (default_row_cases k a t d) as [H|(H & sa & st & ->)]; [left; exact H|].
    right. split; [exact H|]. split; reflexivity.
Qed.

(** X11. After the submit-vote route over db.js answered 200 to a request
    whose fields are strings, the two read routes agree with it: the user-vote
    route reports [hasRated] true with the rating type of the request, and the
    ratings route returns the very body the submit-vote route answered with;
    neither writes. *)
Theorem submitted_vote_is_read_back (b : rating_request) (d d' : database) (resp : response) :
  post_ratings db_js (BodyObject b) d = (Return resp, d') ->
  status resp = 200 ->
  get_user_rating db_js (req_songKey b) (req_userId b) d'
  = (Return {| status := 200; body := UserRatingBody true (req_ratingType b) |}, d')
  /\ get_ratings db_js (req_songKey b) d' = (Return {| status := 200; body := body resp |}, d').
Proof.
  intros Hpost Hstatus.
  destruct (post_ratings_db_js_cases b d)
    as [[_ Hrun]|(k & a & t & r & u & -> & _ & _ & _ & Hrne & _ &
                  [(_ & _ & Hrun)|(Hr & [(v & _ & Hrun)|(Hvote & Hrun)])])];
    rewrite Hrun in Hpost; inversion Hpost; subst resp d'; try discriminate.
  cbn [req_songKey req_userId req_ratingType body]. split.
  - rewrite get_user_rating_route. unfold with_vote; simpl.
    rewrite lookup_insert_eq. simpl.
    rewrite bool_decide_eq_false_2 by assumption. reflexivity.
  - unfold get_ratings, try_catch, bind, ret. cbn [mod_getSongRatings db_js].
    rewrite getSongRatings_with_vote. reflexivity.
Qed.

Lemma submitted_vote_is_read_back_witness :
  let b := {| req_songKey := JStr "song"; req_artist := JStr "Artist";
              req_title := JStr "Title"; req_ratingType := JStr "up";
              req_userId := JStr "user_1" |} in
  let d' := snd (post_ratings db_js (BodyObject b) empty_database) in
  get_user_rating db_js (JStr "song") (JStr "user_1") d'
  = (Return {| status := 200; body := UserRatingBody true (JStr "up") |}, d').
Proof.
  intros b d'.
  exact (proj1 (submitted_vote_is_read_back b empty_database d'
                  {| status := 200;
                     body := RatingsBody (RatingsRow "song" (SongRating "Artist" "Title" 1 0)) |}
                  eq_refl eq_refl)).
Defined.

(** X12. The user-vote route over db.js always answers 200 and writes nothing.
    Its [ratingType] is the recorded rating type, or null without a vote; its
    [hasRated] is true exactly when a vote with a non-empty rating type is
    recorded, so a vote recorded with the empty string as rating type (which
    the store accepts) is reported as not rated. *)
Theorem user_vote_route_reports (d : database) (k u : string) :
  exists hasRated ratingType,
    get_user_rating db_js (JStr k) (JStr u) d
    = (Return {| status := 200; body := UserRatingBody hasRated ratingType |}, d)
    /\ ratingType = from_option JStr JNull (user_ratings d !! (k, u))
    /\ (hasRated = true <-> exists r, user_ratings d !! (k, u) = Some r /\ r <> "").
Proof.
  rewrite get_user_rating_route.
  destruct (user_ratings d !! (k, u)) as [r|]; eexists; eexists;
    (split; [reflexivity|]); (split; [reflexivity|]).
  - simpl. split.
    + intros H. exists r. split; [reflexivity|]. intros ->. discriminate.
    + intros (r' & Hr' & Hne). inversion Hr'; subst r'.
      rewrite bool_decide_eq_false_2 by assumption. reflexivity.
  - split; [discriminate|]. intros (r & H & _). discriminate.
Qed.

(** A vote recorded through the store with the empty string as rating type:
    the route says not rated, the store turns a second vote away. *)
Example empty_rating_type_is_reported_as_not_rated :
  let d := snd (addOrUpdateRating (JStr "song") (JStr "Artist") (JStr "Title") (JStr "")
                  (JStr "user_1") empty_database) in
  fst (get_user_rating db_js (JStr "song") (JStr "user_1") d)
  = Return {| status := 200; body := UserRatingBody false (JStr "") |}
  /\ fst (addOrUpdateRating (JStr "song") (JStr "Artist") (JStr "Title") (JStr "up")
            (JStr "user_1") d)
     = Return (ResultError "User has already rated this song").
Proof. split; reflexivity. Qed.

(** X18. The ratings route over db.js always answers 200 and writes nothing;
    the body carries the song's stored thumbs_up and thumbs_down, both zero
    for a song key without a row. *)
Theorem ratings_route_reports (d : database) (k : string) :
  exists r,
    get_ratings db_js (JStr k) d = (Return {| status := 200; body := RatingsBody r |}, d)
    /\ ratings_thumbs_up r = stored_thumbs_up k d
    /\ ratings_thumbs_down r = stored_thumbs_down k d.
Proof.
  unfold get_ratings, try_catch, bind, ret. cbn [mod_getSongRatings db_js].
  rewrite getSongRatings_lookup. unfold stored_thumbs_up, stored_thumbs_down.
  destruct (song_ratings d !! k) as [row|]; eexists; split_and!; reflexivity.
Qed.

(** * The items table *)

Lemma largest_of_list (ids : list Z) (id : Z) :
  id ∈ ids ->
  exists m, foldr (fun i acc => Some (match acc with Some m' => Z.max i m' | None => i end))
                  None ids = Some m
            /\ id <= m.
Proof.
  induction ids as [|i ids IH]; intros Hin.
  - apply elem_of_nil in Hin. contradiction.
  - apply elem_of_cons in Hin as [->|Hin]; simpl.
    + destruct (foldr _ None ids) as [m'|]; eexists; split; try reflexivity; lia.
    + destruct (IH Hin) as (m' & -> & Hle). eexists. split; [reflexivity|]. lia.
Qed.

(** Every id in the table is at most [largest_rowid]. *)
Lemma largest_rowid_bound (rows : gmap Z item) (id : Z) (it : item) :
  rows !! id = Some it -> exists m, largest_rowid rows = Some m /\ id <= m.
Proof.
  intros Hrow. unfold largest_rowid. apply largest_of_list.
  apply list_elem_of_fmap. exists (id, it). split; [reflexivity|].
  apply elem_of_map_to_list. exact Hrow.
Qed.

(** The id AUTOINCREMENT picks is above the sequence and above every id in the
    table. *)
Lemma new_rowid_fresh (tb : items_table) (v : Z) :
  new_rowid tb = Some v ->
  items_sequence tb < v
  /\ (forall id it, items_rows tb !! id = Some it -> id < v)
  /\ items_rows tb !! v = None.
Proof.
  unfold new_rowid. intros Hnew.
  assert (Hseq : items_sequence tb < v
                 /\ forall m, largest_rowid (items_rows tb) = Some m -> m < v).
  { destruct (largest_rowid (items_rows tb)) as [m|].
    - destruct (decide (MAX_ROWID <= m)); [discriminate|].
      destruct (decide (items_sequence tb = MAX_ROWID)); [discriminate|].
      inversion Hnew; subst v. split; [lia|]. intros m' Hm'. inversion Hm'. lia.
    - destruct (decide (items_sequence tb = MAX_ROWID)); [discriminate|].
      inversion Hnew; subst v. split; [lia|]. discriminate. }
  destruct Hseq as [Hseq Hlargest].
  assert (Hbelow : forall id it, items_rows tb !! id = Some it -> id < v).
  { intros id it Hrow. destruct (largest_rowid_bound _ _ _ Hrow) as (m & Hm & Hle).
    specialize (Hlargest m Hm). lia. }
  split_and!; try assumption.
  destruct (items_rows tb !! v) as [it|] eqn:Hv; [|reflexivity].
  specialize (Hbelow v it Hv). lia.
Qed.

(** A table that has not used up its ids gets a new one. *)
Lemma new_rowid_available (tb : items_table) :
  items_sequence tb < MAX_ROWID ->
  (forall id it, items_rows tb !! id = Some it -> id < MAX_ROWID) ->
  exists v, new_rowid tb = Some v.
Proof.
  intros Hseq Hrows. unfold new_rowid.
  destruct (largest_rowid (items_rows tb)) as [m|] eqn:Hm.
  - assert (Hlt : m < MAX_ROWID).
    { unfold largest_rowid in Hm.
      assert (Hin : m ∈ (fst <$> map_to_list (items_rows tb))).
      { clear Hrows. revert m Hm.
        induction (fst <$> map_to_list (items_rows tb)) as [|i ids IH]; intros m Hm.
        - discriminate.
        - simpl in Hm. destruct (foldr _ None ids) as [m'|] eqn:Hfold.
          + inversion Hm. destruct (Z.max_spec i m') as [[_ ->]|[_ ->]].
            * apply list_elem_of_further. apply IH. reflexivity.
            * apply list_elem_of_here.
          + inversion Hm. apply list_elem_of_here. }
      apply list_elem_of_fmap in Hin as ([id it] & -> & Hin).
      apply elem_of_map_to_list in Hin. simpl. eapply Hrows. exact Hin. }
    rewrite decide_False by lia. rewrite decide_False by lia. eauto.
  - rewrite decide_False by lia. eauto.
Qed.

(** Up to 2^53 in size an integer is its own JavaScript number. *)
Lemma js_number_exact (z : Z) : Z.abs z <= 2 ^ 53 -> js_number z = z.
Proof. intros Hz. unfold js_number. rewrite decide_True by assumption. reflexivity. Qed.

(** The largest id of a table is the id of one of its rows. *)
Lemma largest_rowid_is_a_row (rows : gmap Z item) (m : Z) :
  largest_rowid rows = Some m -> exists it, rows !! m = Some it.
Proof.
  unfold largest_rowid. intros Hm.
  assert (Hin : m ∈ (fst <$> map_to_list rows)).
  { revert m Hm.
    induction (fst <$> map_to_list rows) as [|i ids IH]; intros m Hm.
    - discriminate.
    - simpl in Hm. destruct (foldr _ None ids) as [m'|] eqn:Hfold.
      + inversion Hm. destruct (Z.max_spec i m') as [[_ ->]|[_ ->]].
        * apply list_elem_of_further. apply IH. reflexivity.
        * apply list_elem_of_here.
      + inversion Hm. apply list_elem_of_here. }
  apply list_elem_of_fmap in Hin as ([id it] & -> & Hin).
  apply elem_of_map_to_list in Hin. exists it. exact Hin.
Qed.

(** In a table whose ids and sequence are below a bound, the new id is at most
    the bound; it is positive when the sequence is not negative. *)
Lemma new_rowid_bounds (tb : items_table) (v bound : Z) :
  new_rowid tb = Some v ->
  0 <= items_sequence tb < bound ->
  (forall id it, items_rows tb !! id = Some it -> id < bound) ->
  1 <= v <= bound.
Proof.
  unfold new_rowid. intros Hnew Hseq Hrows.
  destruct (largest_rowid (items_rows tb)) as [m|] eqn:Hm.
  - destruct (largest_rowid_is_a_row _ _ Hm) as [it Hit].
    specialize (Hrows m it Hit).
    destruct (decide (MAX_ROWID <= m)); [discriminate|].
    destruct (decide (items_sequence tb = MAX_ROWID)); [discriminate|].
    inversion Hnew. lia.
  - destruct (decide (items_sequence tb = MAX_ROWID)); [discriminate|].
    inversion Hnew. lia.
Qed.

(** What [addItem] does in a table that has ids left. *)
Lemma addItem_inserts (n : string) (description : jsval) (tb : items_table) (v : Z) :
  new_rowid tb = Some v ->
  addItem (JStr n) description tb
  = (Return {| changes := 1; lastInsertRowid := js_number v |},
     {| items_rows := <[v := {| item_name := n; item_description := bind_param description |}]>
                        (items_rows tb);
        items_sequence := v |}).
Proof.
  intros Hnew. unfold addItem, bind, insert_item, ret. rewrite Hnew. reflexivity.
Qed.

(** X13. [addItem] with a string name, in a table whose ids and id sequence
    are below 2^53 (where a JavaScript number still holds every id exactly): it
    reports one change and an id that no row had and that is above every id in
    the table and above every id handed out before; [getItemById] on that id
    then returns the row with the given name and description (null for a null
    or undefined description), and every other row is as before. *)
Theorem addItem_then_getItemById (n : string) (description : jsval) (tb : items_table) :
  0 <= items_sequence tb < 2 ^ 53 ->
  (forall id it, items_rows tb !! id = Some it -> id < 2 ^ 53) ->
  exists id tb',
    addItem (JStr n) description tb = (Return {| changes := 1; lastInsertRowid := id |}, tb')
    /\ items_rows tb !! id = None
    /\ items_sequence tb < id
    /\ (forall id' it, items_rows tb !! id' = Some it -> id' < id)
    /\ getItemById id tb'
       = (Return (Some (id, {| item_name := n; item_description := bind_param description |})),
          tb')
    /\ (forall id', id' <> id -> getItemById id' tb' = (fst (getItemById id' tb), tb')).
Proof.
  intros Hseq Hrows.
  destruct (new_rowid_available tb) as [v Hnew].
  { unfold MAX_ROWID. lia. }
  { intros id it Hit. specialize (Hrows id it Hit). unfold MAX_ROWID. lia. }
  destruct (new_rowid_fresh tb v Hnew) as (Hsv & Hbelow & Hfree).
  pose proof (new_rowid_bounds tb v (2 ^ 53) Hnew Hseq Hrows) as Hv.
  exists v. eexists. split.
  { rewrite (addItem_inserts n description tb v Hnew).
    rewrite js_number_exact by lia. reflexivity. }
  split_and!; try assumption.
  - unfold getItemById, gets. simpl. rewrite lookup_insert_eq. reflexivity.
  - intros id' Hne. unfold getItemById, gets. simpl.
    rewrite lookup_insert_ne by congruence. reflexivity.
Qed.

Lemma addItem_then_getItemById_witness :
  exists id tb',
    addItem (JStr "first") JNull empty_items
    = (Return {| changes := 1; lastInsertRowid := id |}, tb')
    /\ getItemById id tb'
       = (Return (Some (id, {| item_name := "first"; item_description := None |})), tb').
Proof.
  destruct (addItem_then_getItemById "first" JNull empty_items)
    as (id & tb' & Hadd & _ & _ & _ & Hget & _).
  - simpl. lia.
  - intros id it H. unfold empty_items in H. simpl in H.
    rewrite lookup_empty in H. discriminate.
  - exists id, tb'. split; assumption.
Defined.

(** X14. [addItem] with a null or undefined name throws and leaves the table,
    its id sequence included, as it was. *)
Theorem addItem_without_name_throws (name description : jsval) (tb : items_table) :
  bind_param name = None ->
  exists e, addItem name description tb = (Throw e, tb).
Proof.
  intros Hname. unfold addItem, bind, insert_item.
  destruct (new_rowid tb) as [v|]; [rewrite Hname|]; eexists; reflexivity.
Qed.

Lemma addItem_without_name_throws_witness :
  addItem JNull (JStr "no name") empty_items
  = (Throw (SqliteError "NOT NULL constraint failed: items.name"), empty_items).
Proof.
  destruct (addItem_without_name_throws JNull (JStr "no name") empty_items eq_refl) as [e He].
  rewrite He. f_equal. f_equal. revert He. vm_compute. intros He. inversion He. reflexivity.
Defined.

(** X15. [deleteItem] never throws.  On an id that has a row it reports one
    change, on any other id none and the table is as it was.  Afterwards
    [getItemById] finds nothing under that id, every other row is as before,
    and the id sequence has not moved. *)
Theorem deleteItem_removes (id : Z) (tb : items_table) :
  exists n tb',
    deleteItem id tb = (Return n, tb')
    /\ n = match items_rows tb !! id with Some _ => 1 | None => 0 end
    /\ (items_rows tb !! id = None -> tb' = tb)
    /\ getItemById id tb' = (Return None, tb')
    /\ (forall id', id' <> id -> getItemById id' tb' = (fst (getItemById id' tb), tb'))
    /\ items_sequence tb' = items_sequence tb.
Proof.
  unfold deleteItem, getItemById, gets.
  destruct (items_rows tb !! id) as [it|] eqn:Hrow; eexists; eexists;
    (split; [reflexivity|]); simpl.
  - split_and!; try reflexivity.
    + discriminate.
    + rewrite lookup_delete_eq. reflexivity.
    + intros id' Hne. rewrite lookup_delete_ne by congruence. reflexivity.
  - split_and!; try reflexivity.
    rewrite Hrow. reflexivity.
Qed.

(** No item operation lowers the id sequence. *)
Lemma run_item_op_sequence (o : item_op) (tb : items_table) :
  items_sequence tb <= items_sequence (run_item_op o tb).
Proof.
  destruct o as [name description|id|id]; simpl.
  - unfold addItem, bind, insert_item, ret.
    destruct (new_rowid tb) as [v|] eqn:Hnew; simpl; [|lia].
    destruct (bind_param name); simpl; [|lia].
    destruct (new_rowid_fresh tb v Hnew) as [Hlt _]. lia.
  - lia.
  - unfold deleteItem. destruct (items_rows tb !! id); simpl; lia.
Qed.

Lemma run_item_ops_sequence (ops : list item_op) (tb : items_table) :
  items_sequence tb <= items_sequence (run_item_ops ops tb).
Proof.
  revert tb. induction ops as [|o ops IH]; intros tb; simpl; [lia|].
  pose proof (run_item_op_sequence o tb). pose proof (IH (run_item_op o tb)).
  unfold run_item_ops in *. lia.
Qed.

(** X16. Item ids are never reused.  When [addItem] stored a row and, after
    any further item operations, deletions of that row included, a later
    [addItem] stores another, the later row's id is strictly larger than the
    earlier one's and had no row.  What each call reports as [lastInsertRowid]
    is its row's id as a JavaScript number; as long as the ids are within 2^53
    the reported numbers are strictly increasing as well. *)
Theorem item_ids_are_never_reused (name1 description1 name2 description2 : jsval)
    (ops : list item_op) (tb tb1 tb3 : items_table) (r1 r2 : run_result) :
  addItem name1 description1 tb = (Return r1, tb1) ->
  addItem name2 description2 (run_item_ops ops tb1) = (Return r2, tb3) ->
  lastInsertRowid r1 = js_number (items_sequence tb1)
  /\ lastInsertRowid r2 = js_number (items_sequence tb3)
  /\ is_Some (items_rows tb1 !! items_sequence tb1)
  /\ is_Some (items_rows tb3 !! items_sequence tb3)
  /\ items_rows (run_item_ops ops tb1) !! items_sequence tb3 = None
  /\ items_sequence tb1 < items_sequence tb3
  /\ (0 <= items_sequence tb1 -> items_sequence tb3 <= 2 ^ 53 ->
      lastInsertRowid r1 < lastInsertRowid r2).
Proof.
  intros Hfirst Hsecond.
  assert (H1 : lastInsertRowid r1 = js_number (items_sequence tb1)
               /\ is_Some (items_rows tb1 !! items_sequence tb1)).
  { revert Hfirst. unfold addItem, bind, insert_item, ret.
    destruct (new_rowid tb) as [v|]; [|discriminate].
    destruct (bind_param name1); [|discriminate].
    intros H; inversion H. simpl. split; [reflexivity|].
    rewrite lookup_insert_eq. eauto. }
  assert (H2 : lastInsertRowid r2 = js_number (items_sequence tb3)
               /\ is_Some (items_rows tb3 !! items_sequence tb3)
               /\ items_rows (run_item_ops ops tb1) !! items_sequence tb3 = None
               /\ items_sequence (run_item_ops ops tb1) < items_sequence tb3).
  { revert Hsecond. unfold addItem, bind, insert_item, ret.
    destruct (new_rowid (run_item_ops ops tb1)) as [v|] eqn:Hnew; [|discriminate].
    destruct (bind_param name2); [|discriminate].
    intros H; inversion H. simpl.
    destruct (new_rowid_fresh _ v Hnew) as (Hlt & _ & Hfree).
    split_and!; try assumption; [reflexivity|].
    rewrite lookup_insert_eq. eauto. }
  destruct H1 as [Hr1 Hrow1]. destruct H2 as (Hr2 & Hrow3 & Hfree & Hlt).
  pose proof (run_item_ops_sequence ops tb1) as Hmono.
  split_and!; try assumption; [lia|].
  intros Hlow Hhigh. rewrite Hr1, Hr2.
  rewrite !js_number_exact by lia. lia.
Qed.

(** Add an item, delete it, add another: the second id is not the first. *)
Lemma item_ids_are_never_reused_witness :
  items_sequence (snd (addItem (JStr "first") JNull empty_items))
  < items_sequence
      (snd (addItem (JStr "second") JNull
              (run_item_ops [OpDeleteItem 1] (snd (addItem (JStr "first") JNull empty_items))))).
Proof.
  exact (proj1 (proj2 (proj2 (proj2 (proj2 (proj2
           (item_ids_are_never_reused (JStr "first") JNull (JStr "second") JNull
              [OpDeleteItem 1] empty_items _ _ _ _ eq_refl eq_refl))))))).
Defined.

(** X17. The add-item route checks nothing itself and never throws.  Without
    a parsed body it answers 500 with the TypeError's message.  With a parsed
    body (name and description strings, null or absent) in a table whose ids
    and id sequence are below 2^53: a string name, the empty string included,
    is answered 200 with the new id and the name and description as sent, and
    the item is stored under that id, which had no row; a null or missing name
    is answered 500 with the engine's NOT NULL message.  Nothing is stored
    when the answer is 500. *)
Theorem post_items_answers (reqBody : request_body item_request) (tb : items_table) :
  0 <= items_sequence tb < 2 ^ 53 ->
  (forall id it, items_rows tb !! id = Some it -> id < 2 ^ 53) ->
  match reqBody with
  | BodyUndefined =>
      post_items reqBody tb
      = (Return {| item_status := 500;
                   item_body := ItemError
                     "Cannot destructure property 'name' of 'req.body' as it is undefined." |},
         tb)
  | BodyObject b =>
      match req_name b with
      | JStr n =>
          exists id tb',
            post_items reqBody tb
            = (Return {| item_status := 200;
                         item_body := ItemCreated id (req_name b) (req_description b) |}, tb')
            /\ items_rows tb !! id = None
            /\ items_rows tb' !! id
               = Some {| item_name := n; item_description := bind_param (req_description b) |}
      | _ =>
          post_items reqBody tb
          = (Return {| item_status := 500;
                       item_body := ItemError "NOT NULL constraint failed: items.name" |}, tb)
      end
  end.
Proof.
  intros Hseq Hrows.
  destruct reqBody as [|[name description]]; [reflexivity|].
  destruct (new_rowid_available tb) as [v Hnew].
  { unfold MAX_ROWID. lia. }
  { intros id it Hit. specialize (Hrows id it Hit). unfold MAX_ROWID. lia. }
  destruct (new_rowid_fresh tb v Hnew) as (_ & _ & Hfree).
  pose proof (new_rowid_bounds tb v (2 ^ 53) Hnew Hseq Hrows) as Hv.
  cbn [req_name req_description].
  destruct name as [| |n].
  - unfold post_items, try_catch, destructure, addItem, bind, insert_item, ret. simpl.
    rewrite Hnew. reflexivity.
  - unfold post_items, try_catch, destructure, addItem, bind, insert_item, ret. simpl.
    rewrite Hnew. reflexivity.
  - exists v. eexists. split_and!.
    + unfold post_items, try_catch, destructure. unfold bind at 1. unfold ret at 1.
      unfold bind at 1. cbn [req_name req_description].
      rewrite (addItem_inserts n description tb v Hnew).
      rewrite js_number_exact by lia. reflexivity.
    + exact Hfree.
    + simpl. apply lookup_insert_eq.
Qed.

Lemma post_items_answers_witness :
  post_items (BodyObject {| req_name := JUndefined; req_description := JStr "a description" |})
    empty_items
  = (Return {| item_status := 500;
               item_body := ItemError "NOT NULL constraint failed: items.name" |},
     empty_items).
Proof.
  apply (post_items_answers
           (BodyObject {| req_name := JUndefined; req_description := JStr "a description" |})
           empty_items).
  - simpl. lia.
  - intros id it H. unfold empty_items in H. simpl in H.
    rewrite lookup_empty in H. discriminate.
Defined.

(** The same route on a request without a parsed body. *)
Example post_items_without_body :
  fst (post_items BodyUndefined empty_items)
  = Return {| item_status := 500;
              item_body := ItemError
                "Cannot destructure property 'name' of 'req.body' as it is undefined." |}.
Proof. reflexivity. Qed.

(** From 2^53 on the reported number is no longer the id: the row stored under
    2^53 + 1 is reported as 2^53. *)
Example lastInsertRowid_is_rounded :
  let tb := {| items_rows := ∅; items_sequence := 2 ^ 53 |} in
  fst (addItem (JStr "late") JNull tb)
  = Return {| changes := 1; lastInsertRowid := 2 ^ 53 |}
  /\ items_sequence (snd (addItem (JStr "late") JNull tb)) = 2 ^ 53 + 1.
Proof. split; reflexivity. Qed.
